(** * Barnes-Hut quadtree ([quadtree.py]): model and verified properties

    The functions of [quadtree.py] are embedded as Rocq functions of the
    same names.  The program is written against Python's duck-typed
    numbers ([int | float], NumPy scalars), so the embedding is generic in
    its arithmetic: an instance of the class [Arith] supplies the
    operations the source applies to numbers.  Two instances are given:
    the real numbers (what the formulas mean) and IEEE 754 binary64 (what
    the interpreter computes with).

    Failure is explicit.  A computation returns [Ok v] or [Raise e], with
    [e] among: [Quit], the [print(...); quit(-1)] branches; [ValueError],
    [max()] of an empty sequence; [ZeroDivision], a division whose divisor
    is a computed value equal to zero (a [ZeroDivisionError] on Python
    numbers, [inf]/[nan] with a warning on NumPy scalars; either way no
    value this development reasons about); [OutOfFuel], recursion or
    iteration that went deeper than the bound it was given.

    Arrays are modelled by value: a Node's fields are the values they had
    when the constructor filled them in. *)

From Stdlib Require Import List Bool ZArith Arith Lia.
From Stdlib Require Import Reals Lra.
From Stdlib Require PrimFloat Floats.
Import ListNotations.

Set Implicit Arguments.

(** ** Results and exceptions *)

Inductive exn : Type :=
| Quit            (* print(...); quit(-1) *)
| ValueError      (* max() arg is an empty sequence *)
| ZeroDivision    (* division by a computed zero *)
| OutOfFuel.      (* bound on recursion depth / loop iterations exhausted *)

Inductive Res (A : Type) : Type :=
| Ok (a : A)
| Raise (e : exn).

Arguments Ok {A} a.
Arguments Raise {A} e.

Definition bind {A B : Type} (c : Res A) (k : A -> Res B) : Res B :=
  match c with
  | Ok a => k a
  | Raise e => Raise e
  end.

Declare Scope res_scope.
Delimit Scope res_scope with res.
Notation "x <- c ;; k" := (bind c (fun x => k))
  (at level 61, c at next level, right associativity) : res_scope.

(** ** Numbers *)

(** The operations [quadtree.py] applies to numbers, with the literals it
    writes.  [Flt], [Fle] and [Feq] are Python's [<], [<=] and [==];
    [np_arctan2], [np_cos], [np_sin], [np_sqrt] and [np_power] are the
    NumPy functions of those names. *)
Class Arith (F : Type) : Type := {
  F0 : F;                       (* 0, 0. *)
  F1 : F;                       (* 1 *)
  F2 : F;                       (* 2 *)
  F3 : F;                       (* 3 *)
  Fhalf : F;                    (* 0.5 *)
  Fadd : F -> F -> F;
  Fsub : F -> F -> F;
  Fmul : F -> F -> F;
  Fdiv : F -> F -> F;
  Fopp : F -> F;
  Flt : F -> F -> bool;
  Fle : F -> F -> bool;
  Feq : F -> F -> bool;
  np_pi : F;
  np_arctan2 : F -> F -> F;     (* np.arctan2(y, x) *)
  np_cos : F -> F;
  np_sin : F -> F;
  np_sqrt : F -> F;
  np_power : F -> F -> F
}.

Declare Scope num_scope.
Delimit Scope num_scope with num.
Notation "x + y" := (Fadd x y) : num_scope.
Notation "x - y" := (Fsub x y) : num_scope.
Notation "x * y" := (Fmul x y) : num_scope.
Notation "x / y" := (Fdiv x y) : num_scope.
Notation "- x" := (Fopp x) : num_scope.
Notation "x <? y" := (Flt x y) : num_scope.
Notation "x <=? y" := (Fle x y) : num_scope.
Notation "x =? y" := (Feq x y) : num_scope.

(** ** The quadrants *)

Inductive Quad : Type :=
| NW   (* Northwest *)
| NE   (* Northeast *)
| SW   (* Southwest *)
| SE.  (* Southeast *)

Definition Quad_eqb (a b : Quad) : bool :=
  match a, b with
  | NW, NW | NE, NE | SW, SW | SE, SE => true
  | _, _ => false
  end.

Section Kernel.

Context {F : Type} {A : Arith F}.
Local Open Scope num_scope.
Local Open Scope res_scope.

(** A NumPy array of shape [(2,)]: [v[0]] is [fst v], [v[1]] is [snd v]. *)
Definition Vec : Type := (F * F)%type.

Definition np_zeros : Vec := (F0, F0).                       (* np.zeros(shape=(2, )) *)
Definition vadd (a b : Vec) : Vec := (fst a + fst b, snd a + snd b).
Definition vsub (a b : Vec) : Vec := (fst a - fst b, snd a - snd b).
Definition vscale (k : F) (a : Vec) : Vec := (k * fst a, k * snd a).   (* scalar * array *)
Definition vscale_r (a : Vec) (k : F) : Vec := (fst a * k, snd a * k). (* array * scalar *)

(** [a / b] where [b] is a computed value. *)
Definition checked_div (a b : F) : Res F :=
  if b =? F0 then Raise ZeroDivision else Ok (a / b).

(** Modelled from the spec: [misc.vector_len] is imported by [quadtree.py]
    but is not among the sources; the spec describes it as the Euclidean
    norm [|v|] of a 2-D vector. *)
Definition vector_len (v : Vec) : F :=
  np_sqrt (fst v * fst v + snd v * snd v).

(** [Node._find_quadrant] *)
Definition _find_quadrant (b_pos q_pos : Vec) : Res Quad :=
  let vec := vsub b_pos q_pos in
  let direc := np_arctan2 (snd vec) (fst vec) in
  let pi2 := np_pi * Fhalf in
  if (F0 <? direc) && (direc <=? pi2) then Ok NE
  else if (pi2 <? direc) && (direc <=? np_pi) then Ok NW
  else if (- pi2 <? direc) && (direc <=? F0) then Ok SW
  else if (- np_pi <? direc) && (direc <=? - pi2) then Ok SE
  else Raise Quit.

(** ** Bodies *)

(** [body.Body] is imported by [quadtree.py] but is not among the sources.
    The class lists what [quadtree.py] uses of a body: the attributes
    [b.m] and [b.pos] and the method [b.update(acc, dt, n)], whose effect
    is given as the body after the call.  The call is taken to leave the
    Nodes as they are (the spec has the traversals read an immutable,
    already built tree): a leaf's [cm], assigned from [b.pos], keeps the
    value it was given. *)
Class BodyOps (Body : Type) : Type := {
  Body_m : Body -> F;
  Body_pos : Body -> Vec;
  Body_update : Body -> Vec -> F -> Z -> Body
}.

Context {Body : Type} {B : BodyOps Body}.

(** Python's [sum]: a left fold that starts from the integer 0. *)
Definition py_sum (l : list F) : F := fold_left Fadd l F0.
Definition py_sum_vec (l : list Vec) : Vec := fold_left vadd l (F0, F0).

(** Python's [max] over a generator: [ValueError] when it is empty, else
    the first item is kept until a later one compares greater. *)
Definition py_max (l : list F) : Res F :=
  match l with
  | [] => Raise ValueError
  | x :: rest => Ok (fold_left (fun best y => if best <? y then y else best) rest x)
  end.

(** ** Nodes *)

#[warnings="-register-all"]
Inductive Node : Type := mkNode {
  pos : Vec;                (* middle point of the node *)
  w : F;
  h : F;
  _bodies : list Body;
  cm : Vec;
  total_mass : F;
  children : list Node
}.

(** The dictionary [b_quads] of [_split_bodies], in insertion order. *)
Definition dict : Type := list (Quad * list Body).

Definition b_quads0 : dict := [(NW, []); (NE, []); (SW, []); (SE, [])].

(** [d[quad].append(b)] *)
Fixpoint dict_append (d : dict) (quad : Quad) (b : Body) : dict :=
  match d with
  | [] => []
  | (k, l) :: d' =>
      if Quad_eqb k quad then (k, l ++ [b]) :: d'
      else (k, l) :: dict_append d' quad b
  end.

(** The loop of [Node._split_bodies] over [self._bodies]. *)
Fixpoint split_loop (q_pos : Vec) (bodies : list Body) (b_quads : dict) : Res dict :=
  match bodies with
  | [] => Ok b_quads
  | b :: rest =>
      quad <- _find_quadrant (Body_pos b) q_pos ;;
      split_loop q_pos rest (dict_append b_quads quad b)
  end.

(** [Node._split_bodies] *)
Definition _split_bodies (q_pos : Vec) (bodies : list Body) : Res dict :=
  split_loop q_pos bodies b_quads0.

(** [Node._calc_cm]: the value assigned to [self.cm]. *)
Definition _calc_cm (total_mass : F) (bodies : list Body) : Res Vec :=
  let prod := py_sum_vec (map (fun b => vscale (Body_m b) (Body_pos b)) bodies) in
  k <- checked_div F1 total_mass ;;
  Ok (vscale k prod).

(** [Node._create_node]: [Node_] is the constructor it calls, [children]
    is [self.children] before the call, the result is [self.children]
    after it.  [quad] ranges over the four members of [Quad], so the
    [else] branch of the source has no counterpart. *)
Definition _create_node (Node_ : Vec -> F -> F -> list Body -> Res Node)
    (pos : Vec) (w h : F) (children : list Node)
    (quad : Quad) (bodies : list Body) : Res (list Node) :=
  let half_w := w / F2 in
  let half_h := h / F2 in
  match quad with
  | NW =>
      let x := fst pos - half_w in
      let y := snd pos + half_h in
      node_nw <- Node_ (x, y) half_w half_h bodies ;;
      Ok (children ++ [node_nw])
  | NE =>
      let x := fst pos + half_w in
      let y := snd pos + half_h in
      node_ne <- Node_ (x, y) half_w half_h bodies ;;
      Ok (children ++ [node_ne])
  | SW =>
      let x := fst pos - half_w in
      let y := snd pos - half_h in
      node_sw <- Node_ (x, y) half_w half_h bodies ;;
      Ok (children ++ [node_sw])
  | SE =>
      let x := fst pos + half_w in
      let y := snd pos - half_h in
      node_se <- Node_ (x, y) half_w half_h bodies ;;
      Ok (children ++ [node_se])
  end.

(** [for quad in b_quads.keys(): self._create_node(quad, b_quads[quad])] *)
Fixpoint create_loop (Node_ : Vec -> F -> F -> list Body -> Res Node)
    (pos : Vec) (w h : F) (items : dict) (children : list Node) : Res (list Node) :=
  match items with
  | [] => Ok children
  | (quad, bodies) :: rest =>
      children' <- _create_node Node_ pos w h children quad bodies ;;
      create_loop Node_ pos w h rest children'
  end.

(** [Node._create_child_nodes]: the values of [self.cm] and
    [self.children] when it returns; on entry they are [np.zeros] and
    [[]]. *)
Definition _create_child_nodes (Node_ : Vec -> F -> F -> list Body -> Res Node)
    (pos : Vec) (w h : F) (bodies : list Body) (total_mass : F)
    : Res (Vec * list Node) :=
  match bodies with
  | [] => Ok (np_zeros, [])
  | [b] => Ok (Body_pos b, [])
  | _ =>
      b_quads <- _split_bodies pos bodies ;;
      cm <- _calc_cm total_mass bodies ;;
      children <- create_loop Node_ pos w h b_quads [] ;;
      Ok (cm, children)
  end.

(** [Node.__init__].  [fuel] bounds the nesting of constructor calls. *)
Fixpoint Node_init (fuel : nat) (pos : Vec) (w h : F) (bodies : list Body)
    : Res Node :=
  match fuel with
  | O => Raise OutOfFuel
  | S fuel' =>
      let total_mass := py_sum (map Body_m bodies) in
      r <- _create_child_nodes (Node_init fuel') pos w h bodies total_mass ;;
      Ok (mkNode pos w h bodies (fst r) total_mass (snd r))
  end.

(** Number of Nodes of a tree. *)
Fixpoint node_count (n : Node) : nat :=
  S (fold_right (fun c k => (node_count c + k)%nat) O (children n)).

Definition stack_count (stack : list Node) : nat :=
  fold_right (fun c k => (node_count c + k)%nat) O stack.

(** ** The tree and one simulation step *)

Record QuadTree : Type := mkQuadTree {
  dt : F;
  limit : F;
  eps : F;
  bodies : list Body;
  root : Node
}.

(** [QuadTree.__init__]; the defaults [limit = 5] and [eps = 1e3] are
    the caller's to supply. *)
Definition QuadTree_init (fuel : nat) (bodies : list Body) (dt limit eps : F)
    : Res QuadTree :=
  let pos := (F0, F0) in
  dist <- py_max (map (fun b => vector_len (Body_pos b)) bodies) ;;
  root <- Node_init fuel pos dist dist bodies ;;
  Ok (mkQuadTree dt limit eps bodies root).

(** [constants.big_g]; the module [constants] is not among the sources. *)
Variable big_g : F.

(** [np.mean((a, b))] *)
Definition np_mean (a b : F) : F := (a + b) / F2.

(** [for child in node.children: stack.append(child)].  The stack is
    kept with its top at the head of the list, so [stack.pop()] takes
    the head and the children, appended in order, end up reversed. *)
Definition push_children (children : list Node) (stack : list Node) : list Node :=
  fold_left (fun st child => child :: st) children stack.

(** The body of the [while stack:] loop of [QuadTree.step_forward] once
    [node] has been popped: the stack and [acc] when the iteration ends
    ([continue] or falling off the end). *)
Definition visit (self : QuadTree) (body : Body) (node : Node)
    (stack : list Node) (acc : Vec) : Res (list Node * Vec) :=
  let size := np_mean (w node) (h node) in
  let vec := vsub (cm node) (Body_pos body) in
  let dist := vector_len vec in
  if dist =? F0 then Ok (stack, acc)
  else
    ratio <- checked_div size dist ;;
    if ratio <? limit self then
      let angle := np_arctan2 (snd vec) (fst vec) in
      let denom := np_power (dist * dist + eps self * eps self) (F3 / F2) in
      mag <- checked_div (big_g * total_mass node * dist) denom ;;
      Ok (stack, vadd acc (vscale_r (np_cos angle, np_sin angle) mag))
    else
      Ok (push_children (children node) stack, acc).

(** [while stack: node = stack.pop(); ...], at most [fuel] iterations. *)
Fixpoint while_stack (fuel : nat) (self : QuadTree) (body : Body)
    (stack : list Node) (acc : Vec) : Res Vec :=
  match stack with
  | [] => Ok acc
  | node :: stack' =>
      match fuel with
      | O => Raise OutOfFuel
      | S fuel' =>
          r <- visit self body node stack' acc ;;
          while_stack fuel' self body (fst r) (snd r)
      end
  end.

(** The acceleration computed for [body]: the loop run from
    [stack = [self.root]] and [acc = np.zeros], with one iteration
    allowed per Node of the tree. *)
Definition acceleration (self : QuadTree) (body : Body) : Res Vec :=
  while_stack (node_count (root self)) self body [root self] np_zeros.

(** [for body in self.bodies: ...; body.update(acc=acc, dt=self.dt, n=n)] *)
Fixpoint step_loop (self : QuadTree) (n : Z) (todo : list Body) : Res (list Body) :=
  match todo with
  | [] => Ok []
  | body :: rest =>
      acc <- acceleration self body ;;
      let body' := Body_update body acc (dt self) n in
      rest' <- step_loop self n rest ;;
      Ok (body' :: rest')
  end.

(** [QuadTree.step_forward]: the object after the call. *)
Definition step_forward (self : QuadTree) (n : Z) : Res QuadTree :=
  bodies' <- step_loop self n (bodies self) ;;
  Ok (mkQuadTree (dt self) (limit self) (eps self) bodies' (root self)).

End Kernel.

Arguments Node : clear implicits.
Arguments QuadTree : clear implicits.
Arguments Vec : clear implicits.
Arguments BodyOps : clear implicits.

(** ** The real numbers *)

Definition Rltb (a b : R) : bool := if Rlt_dec a b then true else false.
Definition Rleb (a b : R) : bool := if Rle_dec a b then true else false.
Definition Reqb (a b : R) : bool := if Req_dec_T a b then true else false.

(** The angle of the point [(x, y)], in the interval (-PI, PI], and 0 at
    the origin. *)
Definition R_arctan2 (y x : R) : R :=
  if Rlt_dec 0 x then atan (y / x)
  else if Rlt_dec x 0 then
    if Rle_dec 0 y then atan (y / x) + PI else atan (y / x) - PI
  else if Rlt_dec 0 y then PI / 2
  else if Rlt_dec y 0 then - (PI / 2)
  else 0.

(** [x ** y] for a positive base; 0 for the other bases (the source
    raises a sum of two squares to the power 3/2). *)
Definition R_power (x y : R) : R :=
  if Rlt_dec 0 x then Rpower x y else 0.

#[export] Instance R_arith : Arith R := {|
  F0 := 0%R;
  F1 := 1%R;
  F2 := 2%R;
  F3 := 3%R;
  Fhalf := (1 / 2)%R;
  Fadd := Rplus;
  Fsub := Rminus;
  Fmul := Rmult;
  Fdiv := Rdiv;
  Fopp := Ropp;
  Flt := Rltb;
  Fle := Rleb;
  Feq := Reqb;
  np_pi := PI;
  np_arctan2 := R_arctan2;
  np_cos := cos;
  np_sin := sin;
  np_sqrt := sqrt;
  np_power := R_power
|}.

(** ** IEEE 754 binary64 *)

Module Binary64.
Import PrimFloat.
Local Open Scope float_scope.

(** The functions NumPy takes from the C library, off the cases that the
    standard fixes exactly. *)
Record Libm : Type := {
  libm_atan2 : float -> float -> float;
  libm_cos : float -> float;
  libm_sin : float -> float;
  libm_pow : float -> float -> float
}.

(** [np.pi], the binary64 number nearest to the circle constant. *)
Definition pi : float := 0x1.921fb54442d18p+1.

(** [np.arctan2(y, x)].  The cases with a zero argument are those of
    IEEE 754 and C99 (F.9.1.4), which NumPy documents as well:
    [arctan2(+-0, x)] is [+-0] for [x > 0] or [x = +0] and [+-pi] for
    [x < 0] or [x = -0]; [arctan2(y, +-0)] is [+-pi/2] with the sign of
    [y]; a NaN argument gives NaN. *)
Definition arctan2 (L : Libm) (y x : float) : float :=
  if is_nan y || is_nan x then nan
  else if is_zero y then
    if get_sign x then (if get_sign y then - pi else pi) else y
  else if is_zero x then
    if get_sign y then - (pi / 2) else pi / 2
  else libm_atan2 L y x.

Definition arith (L : Libm) : Arith float := {|
  F0 := 0;
  F1 := 1;
  F2 := 2;
  F3 := 3;
  Fhalf := 0.5;
  Fadd := add;
  Fsub := sub;
  Fmul := mul;
  Fdiv := div;
  Fopp := opp;
  Flt := ltb;
  Fle := leb;
  Feq := eqb;
  np_pi := pi;
  np_arctan2 := arctan2 L;
  np_cos := libm_cos L;
  np_sin := libm_sin L;
  np_sqrt := sqrt;
  np_power := libm_pow L
|}.

(** A body: its mass, position and velocity. *)
Record body : Type := { mass : float; position : float * float; velocity : float * float }.

(** A stand-in for [Body.update]: one explicit Euler step. *)
Definition euler (L : Libm) (b : body) (acc : float * float) (dt : float) (n : Z) : body :=
  let v := (fst (velocity b) + fst acc * dt, snd (velocity b) + snd acc * dt) in
  {| mass := mass b;
     position := (fst (position b) + fst v * dt, snd (position b) + snd v * dt);
     velocity := v |}.

Definition bodies_ops (L : Libm) : BodyOps float body := {|
  Body_m := mass;
  Body_pos := position;
  Body_update := euler L
|}.

End Binary64.

(** ** Notions used to state the properties *)

Section Notions.

Context {F : Type} {A : Arith F} {Body : Type} {B : BodyOps F Body}.
Local Open Scope num_scope.

(** All the Nodes of a tree, the root first. *)
Fixpoint nodes (n : Node F Body) : list (Node F Body) :=
  n :: flat_map nodes (children n).

(** Middle point of the child that [_create_node] builds for [quad]. *)
Definition child_pos (pos : Vec F) (w h : F) (quad : Quad) : Vec F :=
  match quad with
  | NW => (fst pos - w / F2, snd pos + h / F2)
  | NE => (fst pos + w / F2, snd pos + h / F2)
  | SW => (fst pos - w / F2, snd pos - h / F2)
  | SE => (fst pos + w / F2, snd pos - h / F2)
  end.

(** [n] is what the constructor returns when it is given [n]'s own
    [pos], [w], [h] and [_bodies]. *)
Definition built (n : Node F Body) : Prop :=
  exists fuel, Node_init fuel (pos n) (w n) (h n) (_bodies n) = Ok n.

(** [_find_quadrant] puts the body [b] into [quad], seen from [q_pos]. *)
Definition in_quadrant (q_pos : Vec F) (quad : Quad) (b : Body) : bool :=
  match _find_quadrant (Body_pos b) q_pos with
  | Ok k => Quad_eqb k quad
  | Raise _ => false
  end.

(** The bodies held by the leaves of a tree, from left to right. *)
Fixpoint leaf_bodies (n : Node F Body) : list Body :=
  match children n with
  | [] => _bodies n
  | _ :: _ => flat_map leaf_bodies (children n)
  end.

(** A sequence of simulation steps, one per frame number. *)
Fixpoint steps (big_g : F) (self : QuadTree F Body) (frames : list Z)
    : Res (QuadTree F Body) :=
  match frames with
  | [] => Ok self
  | n :: rest => bind (step_forward big_g self n) (fun self' => steps big_g self' rest)
  end.

End Notions.

Local Open Scope R_scope.

(** Sum of the masses, and of the mass-weighted coordinates, of a list
    of bodies. *)
Fixpoint mass_sum {Body : Type} {B : BodyOps R Body} (l : list Body) : R :=
  match l with
  | [] => 0
  | b :: l' => Body_m b + mass_sum l'
  end.

Fixpoint moment_sum {Body : Type} {B : BodyOps R Body} (coord : R * R -> R)
    (l : list Body) : R :=
  match l with
  | [] => 0
  | b :: l' => Body_m b * coord (Body_pos b) + moment_sum coord l'
  end.

(** The region of a Node: the rectangle around [pos] that reaches [w] to
    either side and [h] up and down.  It is the region that the four
    children of [_create_node] tile, with their middle points at [w/2],
    [h/2] from [pos] and [w/2], [h/2] of their own
    ([children_tile_region]). *)
Definition inside {Body : Type} (n : Node R Body) (p : R * R) : Prop :=
  Rabs (fst p - fst (pos n)) <= w n /\ Rabs (snd p - snd (pos n)) <= h n.

(** The quadrant of an offset [(dx, dy)] read off the signs of its
    coordinates. *)
Definition quadrant_of_signs (dx dy : R) : Quad :=
  if Rlt_dec 0 dx then (if Rlt_dec 0 dy then NE else SW)
  else if Rlt_dec dx 0 then (if Rle_dec 0 dy then NW else SE)
  else if Rlt_dec 0 dy then NE
  else if Rlt_dec dy 0 then SE
  else SW.

(** The pull of a tree on a body, by recursion on the tree: nothing from
    a Node whose centre of mass is at the body's position, the softened
    pull of the whole Node when [size / dist < limit], and the sum of the
    pulls of the children otherwise. *)
Fixpoint tree_pull {Body : Type} {B : BodyOps R Body} (big_g : R)
    (self : QuadTree R Body) (body : Body) (node : Node R Body) : R * R :=
  let vec := vsub (cm node) (Body_pos body) in
  let dist := vector_len vec in
  if Req_dec_T dist 0 then (0, 0)
  else if Rlt_dec ((w node + h node) / 2 / dist) (limit self) then
    vscale (big_g * total_mass node * dist
            / Rpower (dist * dist + eps self * eps self) (3 / 2))
           (vscale (/ dist) vec)
  else fold_right (fun c s => vadd (tree_pull big_g self body c) s) (0, 0)
                  (children node).

(** A body for the examples over the reals: mass, position, velocity,
    and one explicit Euler step standing in for [Body.update]. *)
Record rbody : Type := { rmass : R; rposition : R * R; rvelocity : R * R }.

Definition reuler (b : rbody) (acc : R * R) (dt : R) (n : Z) : rbody :=
  let v := (fst (rvelocity b) + fst acc * dt, snd (rvelocity b) + snd acc * dt) in
  {| rmass := rmass b;
     rposition := (fst (rposition b) + fst v * dt, snd (rposition b) + snd v * dt);
     rvelocity := v |}.

#[export] Instance rbody_ops : BodyOps R rbody := {|
  Body_m := rmass;
  Body_pos := rposition;
  Body_update := reuler
|}.

(** Two bodies on the x-axis, the lighter one moving; the tree the
    constructor builds for them around the origin, with its four
    children in the order NW, NE, SW, SE; and a QuadTree holding it. *)
Definition planet : rbody :=
  {| rmass := 1; rposition := (3, 0); rvelocity := (0, 4) |}.

Definition star : rbody :=
  {| rmass := 2; rposition := (-1, 0); rvelocity := (0, 0) |}.

Definition star_leaf : Node R rbody :=
  mkNode (- (3 / 2), 3 / 2) (3 / 2) (3 / 2) [star] (-1, 0) 2 [].

Definition planet_leaf : Node R rbody :=
  mkNode (- (3 / 2), - (3 / 2)) (3 / 2) (3 / 2) [planet] (3, 0) 1 [].

Definition empty_child (p : R * R) : Node R rbody :=
  mkNode p (3 / 2) (3 / 2) [] (0, 0) 0 [].

Definition two_body_tree : Node R rbody :=
  mkNode (0, 0) 3 3 [planet; star] (1 / 3, 0) 3
    [ star_leaf; empty_child (3 / 2, 3 / 2);
      planet_leaf; empty_child (3 / 2, - (3 / 2)) ].

Definition two_body_system : QuadTree R rbody :=
  mkQuadTree 1 5 1000 [planet; star] two_body_tree.

(** The same two bodies in a QuadTree with [limit = 1], under which the
    root is too close to the planet to be accepted. *)
Definition two_body_system_limit_one : QuadTree R rbody :=
  mkQuadTree 1 1 1000 [planet; star] two_body_tree.

(** The planet alone: the QuadTree built for it, the QuadTree after one
    step of length 1, and the tree the constructor would build from the
    position the planet has reached. *)
Definition lone_planet_tree : Node R rbody :=
  mkNode (0, 0) 3 3 [planet] (3, 0) 1 [].

Definition lone_planet_system : QuadTree R rbody :=
  mkQuadTree 1 5 1000 [planet] lone_planet_tree.

Definition planet_moved : rbody :=
  {| rmass := 1; rposition := (3, 4); rvelocity := (0, 4) |}.

Definition lone_planet_after : QuadTree R rbody :=
  mkQuadTree 1 5 1000 [planet_moved] lone_planet_tree.

Definition lone_planet_rebuilt : QuadTree R rbody :=
  mkQuadTree 1 5 1000 [planet_moved]
    (mkNode (0, 0) 5 5 [planet_moved] (3, 4) 1 []).

(** A third body, below and to the left of the origin, and the tree the
    constructor builds for it and the planet. *)
Definition comet : rbody :=
  {| rmass := 1; rposition := (-3, -4); rvelocity := (0, 0) |}.

Definition comet_tree : Node R rbody :=
  mkNode (0, 0) 5 5 [planet; comet] (0, -2) 2
    [ mkNode (- (5 / 2), 5 / 2) (5 / 2) (5 / 2) [] (0, 0) 0 [];
      mkNode (5 / 2, 5 / 2) (5 / 2) (5 / 2) [] (0, 0) 0 [];
      mkNode (- (5 / 2), - (5 / 2)) (5 / 2) (5 / 2) [planet] (3, 0) 1 [];
      mkNode (5 / 2, - (5 / 2)) (5 / 2) (5 / 2) [comet] (-3, -4) 1 [] ].

(** Two massless test bodies. *)
Definition dust : list rbody :=
  [ {| rmass := 0; rposition := (3, 0); rvelocity := (0, 0) |};
    {| rmass := 0; rposition := (-1, 0); rvelocity := (0, 0) |} ].

Unset Implicit Arguments.

(** * Properties *)

(** ** Construction, for any arithmetic *)

Section Construction.

Context {F : Type} {A : Arith F} {Body : Type} {B : BodyOps F Body}.
Local Open Scope num_scope.

Lemma bind_Ok (X Y : Type) (c : Res X) (k : X -> Res Y) (y : Y) :
  bind c k = Ok y -> exists x, c = Ok x /\ k x = Ok y.
Proof.
  destruct c as [x | e]; simpl; intros H.
  - exists x; split; [reflexivity | exact H].
  - discriminate H.
Qed.

Lemma dict_append_keys (d : dict) (quad : Quad) (b : Body) :
  map fst (dict_append d quad b) = map fst d.
Proof.
  induction d as [| [k l] d IH]; simpl; [reflexivity |].
  destruct (Quad_eqb k quad); simpl; [reflexivity |].
  now rewrite IH.
Qed.

Lemma split_loop_keys (q_pos : Vec F) (l : list Body) :
  forall d d', split_loop q_pos l d = Ok d' -> map fst d' = map fst d.
Proof.
  induction l as [| b l IH]; simpl; intros d d' H.
  - now inversion H.
  - apply bind_Ok in H as (quad & _ & H).
    rewrite (IH _ _ H). apply dict_append_keys.
Qed.

Lemma split_bodies_keys (q_pos : Vec F) (l : list Body) (d : dict) :
  _split_bodies q_pos l = Ok d -> map fst d = [NW; NE; SW; SE].
Proof.
  intros H. apply split_loop_keys in H. exact H.
Qed.

Lemma create_node_inv (Node_ : Vec F -> F -> F -> list Body -> Res (Node F Body))
    (p : Vec F) (w0 h0 : F) (cs cs' : list (Node F Body))
    (quad : Quad) (bs : list Body) :
  _create_node Node_ p w0 h0 cs quad bs = Ok cs' ->
  exists c, Node_ (child_pos p w0 h0 quad) (w0 / F2) (h0 / F2) bs = Ok c
            /\ cs' = cs ++ [c].
Proof.
  destruct quad; unfold _create_node, child_pos; intros H;
    apply bind_Ok in H as (c & Hc & H); inversion H; subst; eauto.
Qed.

Lemma create_loop_inv (Node_ : Vec F -> F -> F -> list Body -> Res (Node F Body))
    (p : Vec F) (w0 h0 : F) (items : dict) :
  forall cs cs', create_loop Node_ p w0 h0 items cs = Ok cs' ->
  exists new, cs' = cs ++ new /\
    Forall2 (fun c item =>
               Node_ (child_pos p w0 h0 (fst item)) (w0 / F2) (h0 / F2) (snd item)
               = Ok c) new items.
Proof.
  induction items as [| [quad bs] items IH]; simpl; intros cs cs' H.
  - inversion H; subst. exists []. split; [now rewrite app_nil_r | constructor].
  - apply bind_Ok in H as (cs1 & H1 & H).
    apply create_node_inv in H1 as (c & Hc & ->).
    apply IH in H as (new & -> & Hnew).
    exists (c :: new). split.
    + now rewrite <- app_assoc.
    + constructor; assumption.
Qed.

(** What the constructor stores as it was given. *)
Lemma Node_init_fields (fuel : nat) (p : Vec F) (w0 h0 : F) (bs : list Body)
    (n : Node F Body) :
  Node_init fuel p w0 h0 bs = Ok n ->
  pos n = p /\ w n = w0 /\ h n = h0 /\ _bodies n = bs
  /\ total_mass n = py_sum (map Body_m bs).
Proof.
  destruct fuel as [| fuel]; simpl; intros H; [discriminate |].
  apply bind_Ok in H as (r & _ & H). inversion H; subst; simpl. tauto.
Qed.

(** The constructor on no body and on one body: it returns, whatever the
    geometry, as soon as one call is allowed. *)
Lemma Node_init_nil (fuel : nat) (p : Vec F) (w0 h0 : F) :
  Node_init (S fuel) p w0 h0 [] = Ok (mkNode p w0 h0 [] np_zeros F0 []).
Proof. reflexivity. Qed.

Lemma Node_init_single (fuel : nat) (p : Vec F) (w0 h0 : F) (b : Body) :
  Node_init (S fuel) p w0 h0 [b]
  = Ok (mkNode p w0 h0 [b] (Body_pos b) (py_sum [Body_m b]) []).
Proof. reflexivity. Qed.

(** The constructor on two or more bodies. *)
Lemma Node_init_many (fuel : nat) (p : Vec F) (w0 h0 : F) (bs : list Body)
    (n : Node F Body) :
  (2 <= length bs)%nat ->
  Node_init fuel p w0 h0 bs = Ok n ->
  exists fuel' d,
    fuel = S fuel'
    /\ _split_bodies p bs = Ok d
    /\ _calc_cm (py_sum (map Body_m bs)) bs = Ok (cm n)
    /\ Forall2 (fun c item =>
                  Node_init fuel' (child_pos p w0 h0 (fst item))
                            (w0 / F2) (h0 / F2) (snd item) = Ok c)
               (children n) d.
Proof.
  intros Hlen H.
  destruct fuel as [| fuel]; [discriminate |].
  destruct bs as [| b1 [| b2 bs]]; simpl in Hlen; try lia.
  simpl in H.
  apply bind_Ok in H as (r & Hr & H).
  apply bind_Ok in Hr as (d & Hd & Hr).
  apply bind_Ok in Hr as (c & Hc & Hr).
  apply bind_Ok in Hr as (cs & Hcs & Hr).
  inversion Hr; subst r; clear Hr.
  inversion H; subst n; clear H; simpl.
  apply create_loop_inv in Hcs as (new & -> & Hnew).
  exists fuel, d. repeat split; assumption.
Qed.

(** Every Node of a constructed tree is itself the constructor's result
    on its own fields: what holds of every constructor result holds of
    every Node the program ever builds. *)
Lemma nodes_built (fuel : nat) :
  forall (p : Vec F) (w0 h0 : F) (bs : list Body) (n : Node F Body),
  Node_init fuel p w0 h0 bs = Ok n -> Forall built (nodes n).
Proof.
  induction fuel as [| fuel IH]; intros p w0 h0 bs n H; [discriminate |].
  assert (Hroot : built n).
  { exists (S fuel). destruct (Node_init_fields _ _ _ _ _ _ H) as (-> & -> & -> & -> & _).
    exact H. }
  destruct n as [p' w' h' bs' cm' tm' cs]. simpl. constructor; [exact Hroot |].
  destruct (le_lt_dec 2 (length bs)) as [Hlen | Hlen].
  - destruct (Node_init_many _ _ _ _ _ _ Hlen H) as (fuel' & d & Hf & _ & _ & Hcs).
    injection Hf as <-. simpl in Hcs. clear H Hroot.
    induction Hcs as [| c item cs d' Hc _ IHcs]; simpl; [constructor |].
    apply Forall_app. split; [exact (IH _ _ _ _ _ Hc) | exact IHcs].
  - destruct bs as [| b [| b' bs]]; simpl in Hlen; try lia;
      simpl in H; inversion H; subst; constructor.
Qed.

(** What [_create_child_nodes] does.  A Node constructed from two or
    more bodies gets one child for each of the four quadrants, in the order NW, NE,
    SW, SE of [b_quads], whether or not any body fell into the quadrant:
    it has exactly four children, the child of a quadrant is built from
    the group [_split_bodies] collected for it, around the middle point
    [_create_node] computes, and a child built from an empty group has
    total mass 0, [cm = (0, 0)] and no children. *)
Theorem create_child_nodes_always_four (fuel : nat) (p : Vec F) (w0 h0 : F)
    (bs : list Body) (n : Node F Body) :
  Node_init fuel p w0 h0 bs = Ok n ->
  (2 <= length bs)%nat ->
  exists d,
    _split_bodies p bs = Ok d
    /\ map fst d = [NW; NE; SW; SE]
    /\ length (children n) = 4%nat
    /\ map (@_bodies F Body) (children n) = map snd d
    /\ map (@pos F Body) (children n) = map (child_pos p w0 h0) [NW; NE; SW; SE]
    /\ Forall (fun c => _bodies c = [] ->
                        total_mass c = F0 /\ cm c = np_zeros /\ children c = [])
              (children n).
Proof.
  intros H Hlen.
  destruct (Node_init_many _ _ _ _ _ _ Hlen H) as (fuel' & d & _ & Hd & _ & Hcs).
  exists d. split; [exact Hd |].
  pose proof (split_bodies_keys _ _ _ Hd) as Hkeys.
  split; [exact Hkeys |].
  rewrite <- Hkeys.
  split.
  { rewrite (Forall2_length Hcs), <- (length_map fst d), Hkeys. reflexivity. }
  clear Hkeys Hd H Hlen.
  induction Hcs as [| c [quad g] cs d' Hc _ IHcs]; simpl.
  - repeat split; constructor.
  - destruct IHcs as (IH1 & IH2 & IH3).
    destruct (Node_init_fields _ _ _ _ _ _ Hc) as (Hp & _ & _ & Hb & _).
    simpl in Hp, Hb.
    repeat split.
    + now rewrite Hb, IH1.
    + now rewrite Hp, IH2.
    + constructor; [| exact IH3].
      intros Hnil. rewrite Hb in Hnil. rewrite Hnil in Hc.
      destruct fuel' as [| fuel'']; [discriminate |].
      simpl in Hc. injection Hc as <-. simpl. auto.
Qed.

(** C6.  Every Node that the constructor builds from exactly one body,
    at the root or anywhere in a tree, is a leaf whose [cm] is that
    body's position itself: no child is created and no averaging is
    done. *)
Theorem single_body_leaf (fuel : nat) (p : Vec F) (w0 h0 : F) (bs : list Body)
    (n n' : Node F Body) (b : Body) :
  Node_init fuel p w0 h0 bs = Ok n ->
  In n' (nodes n) ->
  _bodies n' = [b] ->
  children n' = [] /\ cm n' = Body_pos b.
Proof.
  intros H Hin Hb.
  pose proof (nodes_built _ _ _ _ _ _ H) as Hall.
  rewrite Forall_forall in Hall.
  destruct (Hall _ Hin) as (fuel' & Hn').
  rewrite Hb in Hn'.
  destruct fuel' as [| fuel']; [discriminate |].
  rewrite Node_init_single in Hn'.
  inversion Hn' as [Heq]. rewrite <- Heq at 1 2. simpl. auto.
Qed.

End Construction.

(** ** Traversal, for any arithmetic *)

Section Traversal.

Context {F : Type} {A : Arith F} {Body : Type} {B : BodyOps F Body}.
Variable big_g : F.
Local Open Scope num_scope.

Lemma stack_count_push (cs st : list (Node F Body)) :
  stack_count (push_children cs st) = (stack_count cs + stack_count st)%nat.
Proof.
  unfold push_children. revert st.
  induction cs as [| c cs IH]; intros st; simpl; [reflexivity |].
  rewrite IH. simpl. lia.
Qed.

(** An iteration never runs out of fuel (it has no loop of its own), and
    it replaces the popped Node by at most that Node's children. *)
Lemma visit_count (self : QuadTree F Body) (body : Body) (node : Node F Body)
    (st : list (Node F Body)) (acc : Vec F) :
  match visit big_g self body node st acc with
  | Ok r => (S (stack_count (fst r)) <= stack_count (node :: st))%nat
  | Raise e => e = ZeroDivision
  end.
Proof.
  unfold visit, checked_div.
  destruct (Feq _ F0).
  - simpl. destruct node as [? ? ? ? ? ? cs]; simpl. lia.
  - simpl. destruct (Flt _ _).
    + destruct (Feq _ F0); simpl; [reflexivity |].
      destruct node as [? ? ? ? ? ? cs]; simpl. lia.
    + simpl. rewrite stack_count_push.
      destruct node as [? ? ? ? ? ? cs]; simpl. unfold stack_count. lia.
Qed.

(** The loop ends within one iteration per Node on the stack and below
    it: with that much fuel it never stops for lack of fuel. *)
Lemma while_stack_fuel (self : QuadTree F Body) (body : Body) (fuel : nat) :
  forall (st : list (Node F Body)) (acc : Vec F),
  (stack_count st <= fuel)%nat ->
  while_stack big_g fuel self body st acc <> Raise OutOfFuel.
Proof.
  induction fuel as [| fuel IH]; intros st acc Hle.
  - destruct st as [| [? ? ? ? ? ? cs] st]; simpl in *; [discriminate | lia].
  - destruct st as [| node st]; [discriminate |].
    simpl while_stack.
    pose proof (visit_count self body node st acc) as Hv.
    destruct (visit big_g self body node st acc) as [r | e]; simpl.
    + apply IH. lia.
    + subst e. discriminate.
Qed.

Lemma acceleration_fuel (self : QuadTree F Body) (body : Body) :
  acceleration big_g self body <> Raise OutOfFuel.
Proof.
  apply while_stack_fuel. simpl. lia.
Qed.

(** The guard [if dist == 0: continue].  A popped Node whose centre of
    mass is at the body's own position ([dist == 0]) is skipped entirely: the
    iteration ends with the accumulator as it was and with nothing
    pushed, and it returns normally, so no quotient [size / dist] was
    formed; the loop goes on with the rest of the stack.  What is
    excluded is the Node at the body's position (its own leaf,
    [own_leaf_skipped]), not the body's share in a Node further away. *)
Theorem coincident_node_skipped (self : QuadTree F Body) (body : Body)
    (node : Node F Body) (st : list (Node F Body)) (acc : Vec F) :
  (vector_len (vsub (cm node) (Body_pos body)) =? F0) = true ->
  visit big_g self body node st acc = Ok (st, acc)
  /\ forall fuel,
       while_stack big_g (S fuel) self body (node :: st) acc
       = while_stack big_g fuel self body st acc.
Proof.
  intros Hd.
  assert (Hv : visit big_g self body node st acc = Ok (st, acc)).
  { unfold visit. rewrite Hd. reflexivity. }
  split; [exact Hv |].
  intros fuel. simpl. rewrite Hv. reflexivity.
Qed.

Lemma step_loop_length (self : QuadTree F Body) (n : Z) (todo : list Body) :
  forall done, step_loop big_g self n todo = Ok done -> length done = length todo.
Proof.
  induction todo as [| b todo IH]; simpl; intros done H.
  - now inversion H.
  - apply bind_Ok in H as (acc & _ & H).
    apply bind_Ok in H as (rest & Hrest & H).
    inversion H; subst. simpl. now rewrite (IH _ Hrest).
Qed.

Lemma step_forward_fields (self self' : QuadTree F Body) (n : Z) :
  step_forward big_g self n = Ok self' ->
  root self' = root self /\ dt self' = dt self
  /\ limit self' = limit self /\ eps self' = eps self
  /\ length (bodies self') = length (bodies self).
Proof.
  unfold step_forward. intros H.
  apply bind_Ok in H as (bs & Hbs & H). inversion H; subst; simpl.
  rewrite (step_loop_length _ _ _ _ Hbs). tauto.
Qed.

(** C1, as the code has it.  [step_forward] never rebuilds the tree:
    after any number of steps [self.root] is still the Node that
    [QuadTree.__init__] built, from the bodies as they were when the
    QuadTree was constructed; every traversal walks that tree. *)
Theorem steps_walk_initial_tree (fuel : nat) (bs : list Body) (dt0 limit0 eps0 : F)
    (self0 self : QuadTree F Body) (frames : list Z) :
  QuadTree_init fuel bs dt0 limit0 eps0 = Ok self0 ->
  steps big_g self0 frames = Ok self ->
  root self = root self0
  /\ exists dist,
       py_max (map (fun b => vector_len (Body_pos b)) bs) = Ok dist
       /\ Node_init fuel (F0, F0) dist dist bs = Ok (root self).
Proof.
  intros Hinit Hsteps.
  assert (Hroot : root self = root self0).
  { clear Hinit. revert self0 Hsteps.
    induction frames as [| n frames IH]; simpl; intros self0 Hsteps.
    - now inversion Hsteps.
    - apply bind_Ok in Hsteps as (self1 & H1 & Hsteps).
      rewrite (IH _ Hsteps).
      now destruct (step_forward_fields _ _ _ H1) as (-> & _). }
  split; [exact Hroot |].
  unfold QuadTree_init in Hinit.
  apply bind_Ok in Hinit as (dist & Hdist & Hinit).
  apply bind_Ok in Hinit as (r & Hr & Hinit).
  inversion Hinit; subst self0; simpl in Hroot.
  exists dist. rewrite Hroot. split; assumption.
Qed.

End Traversal.

(** ** Quadrant classification on binary64 *)

Module Binary64Facts.
Import PrimFloat FloatOps FloatAxioms SpecFloat.
Import Binary64.
Local Open Scope float_scope.

(** The offset of a body at (-1, -0.) from a centre at the origin keeps
    its negative zero. *)
Lemma offset_keeps_negative_zero (L : Libm) :
  @vsub float (arith L) (-1, -0) (0, 0) = (-1, -0).
Proof. reflexivity. Qed.

(** [np.arctan2(-0., -1.)] is [-np.pi]. *)
Lemma arctan2_negative_zero (L : Libm) : arctan2 L (-0) (-1) = - pi.
Proof. reflexivity. Qed.

(** C3 fails on binary64.  A body at (-1, -0.) and a centre at
    (0, 0): the offset (-1, -0.) is finite and not zero, its angle is
    [-np.pi], the test [-np.pi < direc] of the last branch is false, and
    [_find_quadrant] falls through to [print(...); quit(-1)], whatever
    the C library computes off the axes. *)
Theorem find_quadrant_quits_at_minus_pi (L : Libm) :
  @_find_quadrant float (arith L) (-1, -0) (0, 0) = Raise Quit.
Proof.
  unfold _find_quadrant.
  rewrite offset_keeps_negative_zero. cbn [fst snd np_arctan2 arith].
  rewrite arctan2_negative_zero. vm_compute. reflexivity.
Qed.

(** The same input reaches the branch through the constructors: a
    QuadTree of two bodies, the first at (-1, -0.). *)
Lemma QuadTree_init_quits (L : Libm) :
  @QuadTree_init float (arith L) body (bodies_ops L) 2
    [ {| mass := 1; position := (-1, -0); velocity := (0, 0) |};
      {| mass := 1; position := (1, 0); velocity := (0, 0) |} ]
    1 5 1000
  = Raise Quit.
Proof. vm_compute. reflexivity. Qed.

(** A finite number minus itself is +0. *)
Lemma sub_self (x : float) : is_finite x = true -> x - x = 0.
Proof.
  intros Hf. apply Prim2SF_inj. rewrite sub_spec.
  assert (Hx : match Prim2SF x with
               | S754_nan | S754_infinity _ => False
               | _ => True
               end).
  { unfold Prim2SF. unfold is_finite in Hf.
    destruct (is_nan x); [discriminate |]. simpl in Hf.
    destruct (is_zero x); [exact I |].
    destruct (is_infinity x); [discriminate |].
    destruct (Z.frexp x) as [r exp].
    destruct (shr_fexp _ _ _ _ _) as [shr e'].
    destruct (shr_m shr); exact I. }
  destruct (Prim2SF x) as [s | s | | s m e]; try contradiction.
  - destruct s; reflexivity.
  - unfold SF64sub, SFsub. rewrite Z.sub_diag. reflexivity.
Qed.

(** On binary64 too, a body whose coordinates are those of the centre
    is classified SW: the offset is (+0., +0.) and its angle is +0. *)
Lemma find_quadrant_same_position (L : Libm) (x y : float) :
  is_finite x = true -> is_finite y = true ->
  @_find_quadrant float (arith L) (x, y) (x, y) = Ok SW.
Proof.
  intros Hx Hy. unfold _find_quadrant, vsub. cbn [fst snd Fsub arith].
  rewrite (sub_self x Hx), (sub_self y Hy). vm_compute. reflexivity.
Qed.

End Binary64Facts.

(** ** The real instance: comparisons and the angle *)

Lemma Rltb_true (a b : R) : a < b -> Rltb a b = true.
Proof. intros H. unfold Rltb. destruct (Rlt_dec a b); [reflexivity | contradiction]. Qed.

Lemma Rltb_false (a b : R) : b <= a -> Rltb a b = false.
Proof. intros H. unfold Rltb. destruct (Rlt_dec a b); [lra | reflexivity]. Qed.

Lemma Rleb_true (a b : R) : a <= b -> Rleb a b = true.
Proof. intros H. unfold Rleb. destruct (Rle_dec a b); [reflexivity | contradiction]. Qed.

Lemma Rleb_false (a b : R) : b < a -> Rleb a b = false.
Proof. intros H. unfold Rleb. destruct (Rle_dec a b); [lra | reflexivity]. Qed.

Lemma Reqb_true (a b : R) : a = b -> Reqb a b = true.
Proof. intros H. unfold Reqb. destruct (Req_dec_T a b); [reflexivity | contradiction]. Qed.

Lemma Reqb_false (a b : R) : a <> b -> Reqb a b = false.
Proof. intros H. unfold Reqb. destruct (Req_dec_T a b); [contradiction | reflexivity]. Qed.

Lemma Rltb_spec (a b : R) : Rltb a b = true <-> a < b.
Proof.
  unfold Rltb. destruct (Rlt_dec a b); split; intros; try assumption;
    try reflexivity; try discriminate; contradiction.
Qed.

Lemma Reqb_spec (a b : R) : Reqb a b = true <-> a = b.
Proof.
  unfold Reqb. destruct (Req_dec_T a b); split; intros; try assumption;
    try reflexivity; try discriminate; contradiction.
Qed.

(** Settles the comparisons of a goal once the facts that decide them
    are in reach of [lra]. *)
Ltac Rcompare :=
  repeat match goal with
  | |- context [Rltb ?a ?b] =>
      first [ rewrite (Rltb_true a b) by lra | rewrite (Rltb_false a b) by lra ]
  | |- context [Rleb ?a ?b] =>
      first [ rewrite (Rleb_true a b) by lra | rewrite (Rleb_false a b) by lra ]
  | |- context [Reqb ?a ?b] =>
      first [ rewrite (Reqb_true a b) by lra | rewrite (Reqb_false a b) by lra ]
  end.

Lemma atan_nonpos (t : R) : t <= 0 -> atan t <= 0.
Proof.
  intros [Ht | ->].
  - left. rewrite <- atan_0. now apply atan_increasing.
  - right. exact atan_0.
Qed.

Lemma atan_pos (t : R) : 0 < t -> 0 < atan t.
Proof. intros Ht. rewrite <- atan_0. now apply atan_increasing. Qed.

(** The angle lies in (-PI, PI]. *)
Lemma R_arctan2_range (y x : R) : - PI < R_arctan2 y x <= PI.
Proof.
  pose proof PI_RGT_0 as Hpi.
  unfold R_arctan2.
  destruct (Rlt_dec 0 x) as [Hx | Hx].
  - pose proof (atan_bound (y / x)). lra.
  - destruct (Rlt_dec x 0) as [Hx' | Hx'].
    + pose proof (atan_bound (y / x)) as Hb.
      destruct (Rle_dec 0 y) as [Hy | Hy].
      * assert (y / x <= 0).
        { pose proof (Rinv_lt_0_compat x Hx'). unfold Rdiv. nra. }
        pose proof (atan_nonpos _ H). lra.
      * assert (0 < y / x).
        { pose proof (Rinv_lt_0_compat x Hx'). unfold Rdiv. nra. }
        pose proof (atan_pos _ H). lra.
    + destruct (Rlt_dec 0 y); [lra |]. destruct (Rlt_dec y 0); lra.
Qed.

Lemma R_arctan2_origin : R_arctan2 0 0 = 0.
Proof.
  unfold R_arctan2.
  destruct (Rlt_dec 0 0) as [H | _]; [lra |]. reflexivity.
Qed.

Lemma R_arctan2_east (x : R) : 0 < x -> R_arctan2 0 x = 0.
Proof.
  intros Hx. unfold R_arctan2.
  destruct (Rlt_dec 0 x); [| contradiction].
  unfold Rdiv. rewrite Rmult_0_l. exact atan_0.
Qed.

Lemma R_arctan2_west (x : R) : x < 0 -> R_arctan2 0 x = PI.
Proof.
  intros Hx. unfold R_arctan2.
  destruct (Rlt_dec 0 x); [lra |].
  destruct (Rlt_dec x 0); [| contradiction].
  destruct (Rle_dec 0 0); [| lra].
  unfold Rdiv. rewrite Rmult_0_l, atan_0. ring.
Qed.

(** Over the reals the four ranges of [_find_quadrant] cover every angle
    that [R_arctan2] can return. *)
Lemma find_quadrant_real_total (b_pos q_pos : R * R) :
  exists quad, @_find_quadrant R R_arith b_pos q_pos = Ok quad.
Proof.
  unfold _find_quadrant. cbn [np_arctan2 np_pi Flt Fle Fopp Fmul Fhalf F0 R_arith].
  pose proof (R_arctan2_range (snd (vsub b_pos q_pos)) (fst (vsub b_pos q_pos))) as Hr.
  set (direc := R_arctan2 _ _) in *.
  pose proof PI_RGT_0 as Hpi.
  destruct (Rlt_dec 0 direc) as [H0 | H0].
  - destruct (Rle_dec direc (PI * (1 / 2))) as [H1 | H1].
    + exists NE. Rcompare. reflexivity.
    + exists NW. Rcompare. reflexivity.
  - destruct (Rlt_dec (- (PI * (1 / 2))) direc) as [H1 | H1].
    + exists SW. Rcompare. reflexivity.
    + exists SE. Rcompare. reflexivity.
Qed.

Lemma norm_factor (x y : R) :
  x <> 0 -> sqrt (x * x + y * y) = Rabs x * sqrt (1 + (y / x)²).
Proof.
  intros Hx.
  replace (x * x + y * y) with (x² * (1 + (y / x)²)) by (unfold Rsqr; field; exact Hx).
  rewrite sqrt_mult.
  - now rewrite sqrt_Rsqr_abs.
  - apply Rle_0_sqr.
  - pose proof (Rle_0_sqr (y / x)). lra.
Qed.

Lemma norm_pos (x y : R) : x <> 0 \/ y <> 0 -> 0 < sqrt (x * x + y * y).
Proof.
  intros H. apply sqrt_lt_R0. destruct H; nra.
Qed.

(** [R_arctan2 y x] is the angle of the point [(x, y)]: off the origin,
    the point is its distance from the origin times (cos, sin) of the
    angle. *)
Lemma R_arctan2_polar (y x : R) :
  x <> 0 \/ y <> 0 ->
  cos (R_arctan2 y x) * sqrt (x * x + y * y) = x
  /\ sin (R_arctan2 y x) * sqrt (x * x + y * y) = y.
Proof.
  intros Hxy.
  assert (Hs : 0 < sqrt (1 + (y / x)²)).
  { apply sqrt_lt_R0. pose proof (Rle_0_sqr (y / x)). lra. }
  unfold R_arctan2.
  destruct (Rlt_dec 0 x) as [Hx | Hx].
  - rewrite norm_factor by lra. rewrite Rabs_pos_eq by lra.
    rewrite cos_atan, sin_atan. split; field; lra.
  - destruct (Rlt_dec x 0) as [Hx' | Hx'].
    + rewrite norm_factor by lra. rewrite Rabs_left by lra.
      destruct (Rle_dec 0 y) as [Hy | Hy].
      * rewrite neg_cos, neg_sin, cos_atan, sin_atan. split; field; lra.
      * rewrite cos_minus, sin_minus, cos_PI, sin_PI, cos_atan, sin_atan.
        split; field; lra.
    + assert (x = 0) by lra. subst x.
      destruct Hxy as [Hxy | Hy]; [lra |].
      replace (0 * 0 + y * y) with (y²) by (unfold Rsqr; ring).
      rewrite sqrt_Rsqr_abs.
      destruct (Rlt_dec 0 y) as [Hy' | Hy'].
      * rewrite cos_PI2, sin_PI2, Rabs_pos_eq by lra. lra.
      * destruct (Rlt_dec y 0) as [Hy'' | Hy'']; [| lra].
        rewrite cos_neg, sin_neg, cos_PI2, sin_PI2, Rabs_left by lra. lra.
Qed.

(** ** Classification and traversal over the reals *)

Lemma vsub_self (p : R * R) : vsub p p = (0, 0).
Proof.
  unfold vsub. cbn [Fsub R_arith]. apply f_equal2; ring.
Qed.

Section RealTraversal.

Context {Body : Type} {B : BodyOps R Body}.
Variable big_g : R.

(** Over the reals, when the body's position is the Node's centre
    itself, the offset vector is (0, 0), the angle [arctan2(0, 0)] is 0,
    and the body is classified SW by the third test, [-pi/2 < 0 <= 0]:
    the error branch is not reached.  (On binary64 a zero has a sign and
    the angle of a zero offset need not be 0.) *)
Theorem coincident_body_goes_SW (p : R * R) :
  vsub p p = (0, 0)
  /\ np_arctan2 (snd (vsub p p)) (fst (vsub p p)) = 0
  /\ _find_quadrant p p = Ok SW.
Proof.
  pose proof (vsub_self p) as Hv.
  assert (Ha : np_arctan2 (snd (vsub p p)) (fst (vsub p p)) = 0).
  { rewrite Hv. exact R_arctan2_origin. }
  repeat split; [exact Hv | exact Ha |].
  unfold _find_quadrant. rewrite Ha.
  cbn [np_pi Flt Fle Fopp Fmul Fhalf F0 R_arith].
  pose proof PI_RGT_0.
  Rcompare. reflexivity.
Qed.

Lemma push_children_rev (cs st : list (Node R Body)) :
  push_children cs st = rev cs ++ st.
Proof.
  unfold push_children. revert st.
  induction cs as [| c cs IH]; intros st; simpl; [reflexivity |].
  rewrite IH, <- app_assoc. reflexivity.
Qed.

Lemma vector_len_scale (k : R) (v : R * R) :
  vector_len (vscale k v) = Rabs k * vector_len v.
Proof.
  unfold vector_len, vscale. cbn [fst snd Fmul Fadd np_sqrt R_arith].
  replace (k * fst v * (k * fst v) + k * snd v * (k * snd v))
    with (k² * (fst v * fst v + snd v * snd v)) by (unfold Rsqr; ring).
  rewrite sqrt_mult; [| apply Rle_0_sqr | nra].
  now rewrite sqrt_Rsqr_abs.
Qed.

Lemma vector_len_nonneg (v : R * R) : 0 <= vector_len v.
Proof. apply sqrt_pos. Qed.

Lemma vector_len_zero (v : R * R) : vector_len v = 0 -> v = (0, 0).
Proof.
  unfold vector_len. cbn [Fmul Fadd np_sqrt R_arith]. intros H.
  apply sqrt_eq_0 in H; [| nra].
  destruct v as [x y]. simpl in *. f_equal; nra.
Qed.

(** The softened denominator is positive off [dist = 0]. *)
Lemma denominator_pos (dist e : R) :
  dist <> 0 ->
  np_power (dist * dist + e * e) (3 / 2) = Rpower (dist * dist + e * e) (3 / 2)
  /\ 0 < Rpower (dist * dist + e * e) (3 / 2).
Proof.
  intros Hd. cbn [np_power R_arith]. unfold R_power.
  destruct (Rlt_dec 0 (dist * dist + e * e)) as [_ | Hn]; [| nra].
  split; [reflexivity |]. unfold Rpower. apply exp_pos.
Qed.

(** An accepted Node: the accumulator gains [mag] times the unit vector
    from the body to the Node's centre of mass; the stack is left as it
    was after the pop. *)
Lemma visit_accepted (self : QuadTree R Body) (body : Body)
    (node : Node R Body) (st : list (Node R Body)) (acc : R * R) :
  let size := (w node + h node) / 2 in
  let vec := vsub (cm node) (Body_pos body) in
  let dist := vector_len vec in
  let mag := big_g * total_mass node * dist
             / Rpower (dist * dist + eps self * eps self) (3 / 2) in
  dist <> 0 ->
  size / dist < limit self ->
  visit big_g self body node st acc
  = Ok (st, vadd acc (vscale mag (vscale (/ dist) vec))).
Proof.
  intros size vec dist mag Hd Hacc.
  destruct (denominator_pos dist (eps self) Hd) as [Hpow Hden].
  unfold visit, checked_div, np_mean.
  fold vec. fold dist.
  cbn [Feq Flt Fadd Fdiv Fmul F0 F2 F3 R_arith] in *.
  rewrite (Reqb_false dist 0 Hd). cbn [bind].
  fold size. rewrite (Rltb_true _ _ Hacc).
  change (np_power (dist * dist + eps self * eps self) (3 / 2))
    with (@np_power R R_arith (dist * dist + eps self * eps self) (3 / 2)).
  rewrite Hpow.
  rewrite Reqb_false by lra. cbn [bind]. fold mag.
  f_equal. f_equal.
  assert (Hvec : fst vec <> 0 \/ snd vec <> 0).
  { destruct (Req_dec_T (fst vec) 0) as [Hx | Hx]; [| now left].
    destruct (Req_dec_T (snd vec) 0) as [Hy | Hy]; [| now right].
    exfalso. apply Hd. unfold dist, vector_len.
    cbn [Fmul Fadd np_sqrt R_arith]. rewrite Hx, Hy.
    replace (0 * 0 + 0 * 0) with 0 by ring. exact sqrt_0. }
  destruct (R_arctan2_polar (snd vec) (fst vec) Hvec) as [Hc Hs].
  change (sqrt (fst vec * fst vec + snd vec * snd vec)) with dist in Hc, Hs.
  unfold vscale_r, vscale.
  cbn [fst snd Fmul np_cos np_sin np_arctan2 R_arith].
  set (angle := R_arctan2 (snd vec) (fst vec)) in *.
  apply (f_equal (vadd acc)). apply f_equal2.
  - transitivity (mag * (/ dist * (cos angle * dist))); [field; exact Hd |].
    now rewrite Hc.
  - transitivity (mag * (/ dist * (sin angle * dist))); [field; exact Hd |].
    now rewrite Hs.
Qed.

(** A Node that is neither at the body's position nor accepted: its
    children are pushed, the last one on top. *)
Lemma visit_rejected (self : QuadTree R Body) (body : Body)
    (node : Node R Body) (st : list (Node R Body)) (acc : R * R) :
  let size := (w node + h node) / 2 in
  let dist := vector_len (vsub (cm node) (Body_pos body)) in
  dist <> 0 ->
  ~ size / dist < limit self ->
  visit big_g self body node st acc = Ok (rev (children node) ++ st, acc).
Proof.
  intros size dist Hd Hrej.
  unfold visit, checked_div, np_mean. fold dist.
  cbn [Feq Flt Fadd Fdiv F0 F2 R_arith].
  rewrite (Reqb_false dist 0 Hd). cbn [bind].
  fold size. rewrite Rltb_false by lra.
  now rewrite push_children_rev.
Qed.

(** Over the reals every iteration returns: the only divisors are
    [dist], tested beforehand, and the positive denominator. *)
Lemma visit_returns (self : QuadTree R Body) (body : Body)
    (node : Node R Body) (st : list (Node R Body)) (acc : R * R) :
  exists r, visit big_g self body node st acc = Ok r.
Proof.
  destruct (Req_dec_T (vector_len (vsub (cm node) (Body_pos body))) 0) as [Hd | Hd].
  - exists (st, acc). unfold visit. cbn [Feq F0 R_arith].
    now rewrite (Reqb_true _ _ Hd).
  - destruct (Rlt_dec ((w node + h node) / 2
                       / vector_len (vsub (cm node) (Body_pos body))) (limit self))
      as [Hacc | Hrej].
    + eexists. exact (visit_accepted self body node st acc Hd Hacc).
    + eexists. exact (visit_rejected self body node st acc Hd Hrej).
Qed.

Lemma while_stack_returns (self : QuadTree R Body) (body : Body) (fuel : nat) :
  forall (st : list (Node R Body)) (acc : R * R),
  (stack_count st <= fuel)%nat ->
  exists a, while_stack big_g fuel self body st acc = Ok a.
Proof.
  induction fuel as [| fuel IH]; intros st acc Hle.
  - destruct st as [| [? ? ? ? ? ? cs] st]; simpl in *; [now exists acc | lia].
  - destruct st as [| node st]; [now exists acc |].
    cbn [while_stack].
    pose proof (visit_count big_g self body node st acc) as Hv.
    destruct (visit_returns self body node st acc) as [r Hr].
    rewrite Hr in Hv |- *. cbn [bind]. apply IH. lia.
Qed.

(** Over the reals [step_forward] always returns. *)
Lemma step_forward_returns (self : QuadTree R Body) (n : Z) :
  exists self', step_forward big_g self n = Ok self'.
Proof.
  unfold step_forward.
  assert (H : forall todo, exists done, step_loop big_g self n todo = Ok done).
  { induction todo as [| body todo [done IH]]; cbn [step_loop]; [now exists [] |].
    destruct (while_stack_returns self body (node_count (root self))
                [root self] np_zeros) as [a Ha].
    { simpl. lia. }
    unfold acceleration. rewrite Ha. cbn [bind]. rewrite IH. cbn [bind].
    eexists. reflexivity. }
  destruct (H (bodies self)) as [done Hdone].
  rewrite Hdone. cbn [bind]. eexists. reflexivity.
Qed.

(** The body's own leaf is at distance 0 from the body: it is skipped. *)
Lemma own_leaf_skipped (self : QuadTree R Body) (body : Body)
    (leaf : Node R Body) (st : list (Node R Body)) (acc : R * R) :
  built leaf -> _bodies leaf = [body] ->
  visit big_g self body leaf st acc = Ok (st, acc).
Proof.
  intros (fuel & Hb) Hbody. rewrite Hbody in Hb.
  destruct fuel as [| fuel]; [discriminate |].
  rewrite Node_init_single in Hb.
  assert (Hcm : cm leaf = Body_pos body).
  { injection Hb as Hb. rewrite <- Hb. reflexivity. }
  unfold visit. rewrite Hcm, vsub_self.
  replace (vector_len (0, 0)) with 0.
  - cbn [Feq F0 R_arith]. now rewrite Reqb_true.
  - unfold vector_len. cbn [fst snd Fmul Fadd np_sqrt R_arith].
    replace (0 * 0 + 0 * 0) with 0 by ring. now rewrite sqrt_0.
Qed.

End RealTraversal.

(** ** Masses and geometry over the reals *)

Section RealConstruction.

Context {Body : Type} {B : BodyOps R Body}.
Variable big_g : R.

Lemma fold_left_Rplus (l : list R) (a : R) :
  fold_left Rplus l a = a + fold_right Rplus 0 l.
Proof.
  revert a. induction l as [| x l IH]; intros a; simpl; [ring |].
  rewrite IH. ring.
Qed.

Lemma py_sum_masses (bs : list Body) :
  py_sum (map Body_m bs) = mass_sum bs.
Proof.
  unfold py_sum. cbn [Fadd F0 R_arith]. rewrite fold_left_Rplus, Rplus_0_l.
  induction bs as [| b bs IH]; simpl; [reflexivity |]. now rewrite IH.
Qed.

Lemma py_sum_vec_moments (bs : list Body) :
  py_sum_vec (map (fun b => vscale (Body_m b) (Body_pos b)) bs)
  = (moment_sum fst bs, moment_sum snd bs).
Proof.
  unfold py_sum_vec. cbn [F0 R_arith].
  assert (Hgen : forall a : R * R,
    fold_left vadd (map (fun b => vscale (Body_m b) (Body_pos b)) bs) a
    = (fst a + moment_sum fst bs, snd a + moment_sum snd bs)).
  { induction bs as [| b bs IH]; intros a; simpl.
    - destruct a; simpl. f_equal; ring.
    - rewrite IH. unfold vadd, vscale. cbn [fst snd Fadd Fmul R_arith].
      f_equal; ring. }
  rewrite Hgen. simpl. f_equal; ring.
Qed.

(** Mass and centre of mass of a Node that the constructor returned. *)
Lemma built_masses (n' : Node R Body) :
  built n' ->
  total_mass n' = mass_sum (_bodies n')
  /\ ((2 <= length (_bodies n'))%nat ->
      mass_sum (_bodies n') <> 0
      /\ cm n' = (moment_sum fst (_bodies n') / mass_sum (_bodies n'),
                  moment_sum snd (_bodies n') / mass_sum (_bodies n'))).
Proof.
  intros (fuel' & Hn').
  destruct (Node_init_fields _ _ _ _ _ _ Hn') as (_ & _ & _ & _ & Hm).
  rewrite py_sum_masses in Hm.
  split; [exact Hm |].
  intros Hlen.
  destruct (Node_init_many _ _ _ _ _ _ Hlen Hn') as (f & d & _ & _ & Hcm & _).
  unfold _calc_cm, checked_div in Hcm.
  rewrite py_sum_masses, py_sum_vec_moments in Hcm.
  cbn [Feq Fdiv F0 F1 R_arith] in Hcm.
  destruct (Req_dec_T (mass_sum (_bodies n')) 0) as [Hz | Hnz].
  - rewrite (Reqb_true _ _ Hz) in Hcm. discriminate.
  - rewrite (Reqb_false _ _ Hnz) in Hcm. cbn [bind] in Hcm.
    split; [exact Hnz |].
    injection Hcm as <-. unfold vscale. cbn [fst snd Fmul R_arith].
    f_equal; field; exact Hnz.
Qed.

(** A constructed Node of total mass 0 has no children. *)
Lemma built_massless_leaf (n' : Node R Body) :
  built n' -> total_mass n' = 0 -> children n' = [].
Proof.
  intros Hb Hzero.
  destruct (le_lt_dec 2 (length (_bodies n'))) as [Hlen | Hlen].
  - destruct (built_masses n' Hb) as [Hm Hcm].
    destruct (Hcm Hlen) as [Hnz _]. rewrite <- Hm in Hnz. contradiction.
  - destruct Hb as (fuel' & Hn').
    destruct fuel' as [| fuel']; [discriminate |].
    destruct (_bodies n') as [| b [| b' l]]; simpl in Hlen; try lia;
      simpl in Hn'; injection Hn' as <-; reflexivity.
Qed.

(** C5.  For every Node the constructor builds, [total_mass] is the sum
    of the masses of the bodies it was built from; when these are two
    or more, that sum is not zero and [cm] is the mass-weighted average
    of their positions, coordinate by coordinate. *)
Theorem mass_and_centre_of_mass (fuel : nat) (p : R * R) (w0 h0 : R)
    (bs : list Body) (n n' : Node R Body) :
  Node_init fuel p w0 h0 bs = Ok n ->
  In n' (nodes n) ->
  total_mass n' = mass_sum (_bodies n')
  /\ ((2 <= length (_bodies n'))%nat ->
      mass_sum (_bodies n') <> 0
      /\ cm n' = (moment_sum fst (_bodies n') / mass_sum (_bodies n'),
                  moment_sum snd (_bodies n') / mass_sum (_bodies n'))).
Proof.
  intros H Hin.
  pose proof (nodes_built _ _ _ _ _ _ H) as Hall.
  rewrite Forall_forall in Hall.
  exact (built_masses n' (Hall _ Hin)).
Qed.

(** C10.  A constructed Node whose [total_mass] is 0 (such as the child
    built for a quadrant no body fell into) has no children, and the
    traversal leaves the accumulator and the rest of the stack as they
    were when it visits it: whatever it adds has magnitude
    [G * 0 * dist / denom = 0]. *)
Theorem zero_mass_node_inert (fuel : nat) (p : R * R) (w0 h0 : R)
    (bs : list Body) (n n' : Node R Body)
    (self : QuadTree R Body) (body : Body) (st : list (Node R Body)) (acc : R * R) :
  Node_init fuel p w0 h0 bs = Ok n ->
  In n' (nodes n) ->
  total_mass n' = 0 ->
  children n' = []
  /\ visit big_g self body n' st acc = Ok (st, acc).
Proof.
  intros H Hin Hzero.
  assert (Hleaf : children n' = []).
  { pose proof (nodes_built _ _ _ _ _ _ H) as Hall.
    rewrite Forall_forall in Hall.
    exact (built_massless_leaf n' (Hall _ Hin) Hzero). }
  split; [exact Hleaf |].
  unfold visit, checked_div. rewrite Hleaf, Hzero.
  set (vec := vsub (cm n') (Body_pos body)).
  set (dist := vector_len vec).
  cbn [Feq F0 R_arith].
  destruct (Req_dec_T dist 0) as [Hd | Hd].
  - now rewrite (Reqb_true _ _ Hd).
  - rewrite (Reqb_false _ _ Hd). cbn [bind].
    destruct (Flt _ _); [| reflexivity].
    destruct (denominator_pos dist (eps self) Hd) as [Hpow Hden].
    cbn [Fmul Fadd Fdiv F2 F3 R_arith] in *.
    rewrite Hpow, Reqb_false by lra. cbn [bind].
    f_equal. f_equal. unfold vadd, vscale_r.
    cbn [fst snd Fmul Fadd Fdiv R_arith].
    destruct acc as [ax ay]; simpl. f_equal; field; lra.
Qed.

Lemma fold_max_bound (rest : list R) :
  forall best,
  In (fold_left (fun best y => if Rltb best y then y else best) rest best)
     (best :: rest)
  /\ forall x, In x (best :: rest) ->
       x <= fold_left (fun best y => if Rltb best y then y else best) rest best.
Proof.
  induction rest as [| y rest IH]; intros best.
  - simpl. split; [now left | intros x [<- | []]; lra].
  - cbn [fold_left].
    destruct (IH (if Rltb best y then y else best)) as [Hin Hall].
    assert (Hb : best <= (if Rltb best y then y else best)
                 /\ y <= (if Rltb best y then y else best)
                 /\ ((if Rltb best y then y else best) = best
                     \/ (if Rltb best y then y else best) = y)).
    { unfold Rltb. destruct (Rlt_dec best y); repeat split; try lra; auto. }
    destruct Hb as (Hb1 & Hb2 & Hb3).
    split.
    + destruct Hin as [Hin | Hin].
      * rewrite <- Hin. destruct Hb3 as [-> | ->]; [now left | right; now left].
      * right. now right.
    + intros x [<- | [<- | Hx]].
      * apply Rle_trans with (1 := Hb1). apply Hall. now left.
      * apply Rle_trans with (1 := Hb2). apply Hall. now left.
      * apply Hall. now right.
Qed.

Lemma py_max_bound (l : list R) (v : R) :
  py_max l = Ok v -> In v l /\ forall x, In x l -> x <= v.
Proof.
  destruct l as [| x0 rest]; simpl; [discriminate |].
  intros H. injection H as <-.
  exact (fold_max_bound rest x0).
Qed.

Lemma coordinates_le_norm (v : R * R) :
  Rabs (fst v) <= vector_len v /\ Rabs (snd v) <= vector_len v.
Proof.
  unfold vector_len. cbn [Fmul Fadd np_sqrt R_arith].
  split.
  - rewrite <- sqrt_Rsqr_abs. apply sqrt_le_1_alt. unfold Rsqr. nra.
  - rewrite <- sqrt_Rsqr_abs. apply sqrt_le_1_alt. unfold Rsqr. nra.
Qed.

Lemma Rabs_le_bounds (a b : R) : Rabs a <= b -> - b <= a <= b.
Proof.
  intros H. pose proof (Rle_abs a) as H1. pose proof (Rle_abs (- a)) as H2.
  rewrite Rabs_Ropp in H2. lra.
Qed.

(** The regions of the four children that [_create_node] places around
    a Node cover the Node's own region. *)
Lemma children_tile_region (c p : R * R) (w0 h0 : R) :
  Rabs (fst p - fst c) <= w0 ->
  Rabs (snd p - snd c) <= h0 ->
  exists quad,
    Rabs (fst p - fst (child_pos c w0 h0 quad)) <= w0 / 2
    /\ Rabs (snd p - snd (child_pos c w0 h0 quad)) <= h0 / 2.
Proof.
  intros Hx Hy.
  apply Rabs_le_bounds in Hx. apply Rabs_le_bounds in Hy.
  destruct (Rle_dec 0 (fst p - fst c)) as [Hdx | Hdx];
    destruct (Rle_dec 0 (snd p - snd c)) as [Hdy | Hdy].
  - exists NE. cbn [child_pos fst snd Fadd Fsub Fdiv F2 R_arith].
    split; apply Rabs_le; lra.
  - exists SE. cbn [child_pos fst snd Fadd Fsub Fdiv F2 R_arith].
    split; apply Rabs_le; lra.
  - exists NW. cbn [child_pos fst snd Fadd Fsub Fdiv F2 R_arith].
    split; apply Rabs_le; lra.
  - exists SW. cbn [child_pos fst snd Fadd Fsub Fdiv F2 R_arith].
    split; apply Rabs_le; lra.
Qed.

(** C8.  The constructor puts the root Node at the origin, with width
    and height both equal to the largest distance from the origin to a
    body of the list; every body then lies inside the root's region. *)
Theorem root_spans_bodies (fuel : nat) (bs : list Body) (dt0 limit0 eps0 : R)
    (self : QuadTree R Body) :
  QuadTree_init fuel bs dt0 limit0 eps0 = Ok self ->
  pos (root self) = (0, 0)
  /\ w (root self) = h (root self)
  /\ (exists b, In b bs /\ w (root self) = vector_len (Body_pos b))
  /\ (forall b, In b bs -> vector_len (Body_pos b) <= w (root self))
  /\ (forall b, In b bs -> inside (root self) (Body_pos b)).
Proof.
  unfold QuadTree_init. intros H.
  apply bind_Ok in H as (dist & Hdist & H).
  apply bind_Ok in H as (r & Hr & H).
  injection H as <-. cbn [root].
  destruct (Node_init_fields _ _ _ _ _ _ Hr) as (Hp & Hw & Hh & _ & _).
  destruct (py_max_bound _ _ Hdist) as [Hin Hmax].
  assert (Hle : forall b, In b bs -> vector_len (Body_pos b) <= w r).
  { intros b Hb. rewrite Hw. apply Hmax.
    apply (in_map (fun b => vector_len (Body_pos b)) _ _ Hb). }
  rewrite Hp. split; [reflexivity |].
  split; [now rewrite Hw, Hh |].
  split.
  { apply in_map_iff in Hin as (b & Hb & Hin). exists b. split; [exact Hin |].
    now rewrite Hw. }
  split; [exact Hle |].
  intros b Hb. unfold inside. rewrite Hp, Hh, <- Hw. cbn [fst snd F0 R_arith].
  rewrite !Rminus_0_r.
  destruct (coordinates_le_norm (Body_pos b)) as [Hx Hy].
  pose proof (Hle b Hb). lra.
Qed.

(** The constructor does not return for two bodies at one position:
    they fall into the same quadrant at every level, so the calls nest
    without end (Python gives up with a RecursionError) and no bound on
    the depth is enough. *)
Lemma Node_init_same_position (b b' : Body) :
  Body_pos b = Body_pos b' ->
  Body_m b + Body_m b' <> 0 ->
  forall (fuel : nat) (p : R * R) (w0 h0 : R),
  Node_init fuel p w0 h0 [b; b'] = Raise OutOfFuel.
Proof.
  intros Hpos Hm.
  induction fuel as [| fuel IH]; intros p w0 h0; [reflexivity |].
  destruct (find_quadrant_real_total (Body_pos b) p) as [q Hq].
  cbn [Node_init _create_child_nodes _split_bodies split_loop].
  rewrite <- Hpos, Hq. cbn [bind].
  unfold _calc_cm, checked_div, py_sum. cbn [map fold_left Feq Fadd F0 R_arith].
  rewrite Reqb_false by lra. cbn [bind].
  destruct fuel as [| fuel].
  - destruct q; reflexivity.
  - destruct q; cbn [dict_append b_quads0 Quad_eqb app create_loop _create_node];
      repeat (first [rewrite Node_init_nil | rewrite IH];
              cbn [bind create_loop _create_node]);
      reflexivity.
Qed.

End RealConstruction.

(** ** A worked example over the reals *)

Lemma find_quadrant_east_axis (bx cx y : R) :
  cx < bx -> _find_quadrant (bx, y) (cx, y) = Ok SW.
Proof.
  intros H. unfold _find_quadrant, vsub.
  cbn [fst snd np_arctan2 np_pi Flt Fle Fopp Fmul Fsub Fhalf F0 R_arith].
  replace (y - y) with 0 by ring.
  rewrite R_arctan2_east by lra.
  pose proof PI_RGT_0. Rcompare. reflexivity.
Qed.

Lemma find_quadrant_west_axis (bx cx y : R) :
  bx < cx -> _find_quadrant (bx, y) (cx, y) = Ok NW.
Proof.
  intros H. unfold _find_quadrant, vsub.
  cbn [fst snd np_arctan2 np_pi Flt Fle Fopp Fmul Fsub Fhalf F0 R_arith].
  replace (y - y) with 0 by ring.
  rewrite R_arctan2_west by lra.
  pose proof PI_RGT_0. Rcompare. reflexivity.
Qed.

Lemma mkNode_ext (p p' : R * R) (w0 w0' h0 h0' : R) (bs bs' : list rbody)
    (c c' : R * R) (t t' : R) (cs cs' : list (Node R rbody)) :
  p = p' -> w0 = w0' -> h0 = h0' -> bs = bs' -> c = c' -> t = t' -> cs = cs' ->
  mkNode p w0 h0 bs c t cs = mkNode p' w0' h0' bs' c' t' cs'.
Proof. intros; subst; reflexivity. Qed.

(** Equality of two trees written out in full, field by field, with the
    numbers compared by [lra]. *)
Ltac same_tree :=
  lazymatch goal with
  | |- Ok _ = Ok _ => apply f_equal; same_tree
  | |- mkNode _ _ _ _ _ _ _ = mkNode _ _ _ _ _ _ _ => apply mkNode_ext; same_tree
  | |- (_, _) = (_, _) => apply f_equal2; same_tree
  | |- _ :: _ = _ :: _ => apply f_equal2; same_tree
  | |- @eq R _ _ => lra
  | |- _ => reflexivity
  end.

Lemma rbody_ext (m m' : R) (p p' v v' : R * R) :
  m = m' -> p = p' -> v = v' ->
  Build_rbody m p v = Build_rbody m' p' v'.
Proof. intros; subst; reflexivity. Qed.

Lemma mkQuadTree_ext (d d' l l' e e' : R) (bs bs' : list rbody)
    (r r' : Node R rbody) :
  d = d' -> l = l' -> e = e' -> bs = bs' -> r = r' ->
  mkQuadTree d l e bs r = mkQuadTree d' l' e' bs' r'.
Proof. intros; subst; reflexivity. Qed.

Lemma vector_len_x_axis (x : R) : vector_len (x, 0) = Rabs x.
Proof.
  unfold vector_len. cbn [fst snd Fmul Fadd np_sqrt R_arith].
  replace (x * x + 0 * 0) with (x²) by (unfold Rsqr; ring).
  apply sqrt_Rsqr_abs.
Qed.

Lemma vector_len_3_4 : vector_len (3, 4) = 5.
Proof.
  unfold vector_len. cbn [fst snd Fmul Fadd np_sqrt R_arith].
  replace (3 * 3 + 4 * 4) with (5 * 5) by ring.
  apply sqrt_square. lra.
Qed.

Lemma two_body_tree_built :
  Node_init 2 (0, 0) 3 3 [planet; star] = Ok two_body_tree.
Proof.
  cbn [Node_init _create_child_nodes _split_bodies split_loop].
  cbn [Body_pos rbody_ops planet star rposition].
  rewrite (find_quadrant_east_axis 3 0 0), (find_quadrant_west_axis (-1) 0 0) by lra.
  cbn [bind dict_append b_quads0 Quad_eqb app].
  unfold _calc_cm, checked_div, py_sum, py_sum_vec, vadd, vscale.
  cbn [map fold_left Body_m Body_pos rbody_ops rmass rposition planet star fst snd
       Fadd Fmul Fdiv Feq F0 F1 R_arith].
  rewrite Reqb_false by lra.
  cbn [bind create_loop _create_node _create_child_nodes fst snd app map fold_left
       Fadd Fsub Fdiv F0 F2 R_arith].
  unfold two_body_tree, star_leaf, planet_leaf, empty_child, np_zeros.
  cbn [Body_pos rbody_ops rmass rposition planet star F0 R_arith].
  same_tree.
Qed.

Lemma two_body_system_built :
  QuadTree_init 2 [planet; star] 1 5 1000 = Ok two_body_system.
Proof.
  unfold QuadTree_init, py_max.
  cbn [map fold_left Body_pos rbody_ops rposition planet star Flt F0 R_arith].
  rewrite !vector_len_x_axis.
  rewrite (Rabs_pos_eq 3), (Rabs_left (-1)) by lra.
  rewrite Rltb_false by lra.
  cbn [bind]. rewrite two_body_tree_built. reflexivity.
Qed.

Lemma lone_planet_built :
  QuadTree_init 1 [planet] 1 5 1000 = Ok lone_planet_system.
Proof.
  unfold QuadTree_init, py_max.
  cbn [map fold_left Body_pos rbody_ops rposition planet F0 R_arith].
  rewrite vector_len_x_axis, Rabs_pos_eq by lra.
  cbn [bind Node_init _create_child_nodes fst snd].
  unfold lone_planet_system, lone_planet_tree, py_sum.
  cbn [map fold_left Body_m Body_pos rbody_ops rmass rposition planet Fadd F0 R_arith].
  apply f_equal. apply mkQuadTree_ext; try reflexivity. same_tree.
Qed.

(** The planet's own leaf is at distance 0 from the planet: the step
    finds no acceleration, and the planet drifts with its velocity. *)
Lemma lone_planet_step (big_g : R) :
  step_forward big_g lone_planet_system 0 = Ok lone_planet_after.
Proof.
  unfold step_forward.
  cbn [bodies lone_planet_system step_loop].
  unfold acceleration.
  cbn [root lone_planet_system node_count lone_planet_tree
       children fold_right while_stack Nat.add].
  unfold visit.
  cbn [cm Body_pos rbody_ops rposition planet].
  rewrite vsub_self, vector_len_x_axis, Rabs_R0.
  cbn [Feq F0 R_arith]. rewrite Reqb_true by reflexivity.
  cbn [bind fst snd while_stack].
  unfold lone_planet_after, planet_moved, np_zeros.
  cbn [Body_update rbody_ops dt limit eps lone_planet_system F0 R_arith].
  unfold reuler. cbn [rmass rposition rvelocity planet fst snd].
  apply f_equal. apply mkQuadTree_ext; try reflexivity.
  apply f_equal2; [| reflexivity].
  apply rbody_ext; [reflexivity | apply f_equal2; lra | apply f_equal2; lra].
Qed.

Lemma lone_planet_rebuilt_built :
  QuadTree_init 1 [planet_moved] 1 5 1000 = Ok lone_planet_rebuilt.
Proof.
  unfold QuadTree_init, py_max.
  cbn [map fold_left Body_pos rbody_ops rposition planet_moved F0 R_arith].
  rewrite vector_len_3_4.
  cbn [bind Node_init _create_child_nodes fst snd].
  unfold lone_planet_rebuilt, py_sum.
  cbn [map fold_left Body_m Body_pos rbody_ops rmass rposition planet_moved
       Fadd F0 R_arith].
  apply f_equal. apply mkQuadTree_ext; try reflexivity. same_tree.
Qed.

(** ** The claims on the worked example *)

(** C1 fails as stated.  After one step the planet has moved from (3, 0)
    to (3, 4), yet the tree the next step will walk is the tree built
    when the planet was at (3, 0): it is not the tree the constructor
    builds from the current position (width and height 3 against 5). *)
Lemma stale_tree_after_step :
  QuadTree_init 1 [planet] 1 5 1000 = Ok lone_planet_system
  /\ step_forward 1 lone_planet_system 0 = Ok lone_planet_after
  /\ QuadTree_init 1 (bodies lone_planet_after) 1 5 1000 = Ok lone_planet_rebuilt
  /\ root lone_planet_after <> root lone_planet_rebuilt.
Proof.
  split; [exact lone_planet_built |].
  split; [exact (lone_planet_step 1) |].
  split; [exact lone_planet_rebuilt_built |].
  intros H. apply (f_equal (@w R rbody)) in H. simpl in H. lra.
Qed.

Lemma steps_walk_initial_tree_witness :
  QuadTree_init 1 [planet] 1 5 1000 = Ok lone_planet_system
  /\ steps 1 lone_planet_system [0%Z] = Ok lone_planet_after
  /\ root lone_planet_after = root lone_planet_system
  /\ exists dist,
       py_max (map (fun b => vector_len (Body_pos b)) [planet]) = Ok dist
       /\ Node_init 1 (0, 0) dist dist [planet] = Ok (root lone_planet_after).
Proof.
  assert (H1 : QuadTree_init 1 [planet] 1 5 1000 = Ok lone_planet_system)
    by exact lone_planet_built.
  assert (H2 : steps 1 lone_planet_system [0%Z] = Ok lone_planet_after).
  { cbn [steps]. rewrite lone_planet_step. reflexivity. }
  split; [exact H1 |]. split; [exact H2 |].
  exact (@steps_walk_initial_tree R R_arith rbody rbody_ops 1 1 [planet] 1 5 1000
           lone_planet_system lone_planet_after [0%Z] H1 H2).
Defined.

(** C2.  The code does not do what C2 and its own comment ("Create the
    child nodes for quadrants that have bodies in them") say: a child is
    created for every quadrant, also for one whose body group is empty.
    The Node built from the planet and the star has a child for the
    north-east quadrant, where neither body lies: that child is in its
    list of children and was built by the constructor from the empty
    list. *)
Lemma empty_quadrant_child_built :
  Node_init 2 (0, 0) 3 3 [planet; star] = Ok two_body_tree
  /\ (2 <= length [planet; star])%nat
  /\ In (empty_child (3 / 2, 3 / 2)) (children two_body_tree)
  /\ _bodies (empty_child (3 / 2, 3 / 2)) = []
  /\ Node_init 1 (3 / 2, 3 / 2) (3 / 2) (3 / 2) [] = Ok (empty_child (3 / 2, 3 / 2)).
Proof.
  split; [exact two_body_tree_built |].
  split; [simpl; lia |].
  split; [simpl; right; left; reflexivity |].
  split; reflexivity.
Qed.

Lemma create_child_nodes_always_four_witness :
  Node_init 2 (0, 0) 3 3 [planet; star] = Ok two_body_tree
  /\ (2 <= length [planet; star])%nat
  /\ exists d,
       _split_bodies (0, 0) [planet; star] = Ok d
       /\ map fst d = [NW; NE; SW; SE]
       /\ length (children two_body_tree) = 4%nat
       /\ map (@_bodies R rbody) (children two_body_tree) = map snd d
       /\ map (@pos R rbody) (children two_body_tree)
          = map (child_pos (0, 0) 3 3) [NW; NE; SW; SE]
       /\ Forall (fun c => _bodies c = [] ->
                           total_mass c = F0 /\ cm c = np_zeros /\ children c = [])
                 (children two_body_tree).
Proof.
  assert (H1 : Node_init 2 (0, 0) 3 3 [planet; star] = Ok two_body_tree)
    by exact two_body_tree_built.
  assert (H2 : (2 <= length [planet; star])%nat) by (simpl; lia).
  split; [exact H1 |]. split; [exact H2 |].
  exact (@create_child_nodes_always_four R R_arith rbody rbody_ops 2 (0, 0) 3 3
           [planet; star] two_body_tree H1 H2).
Defined.

Lemma star_seen_from_planet :
  vsub (cm star_leaf) (Body_pos planet) = (-4, 0)
  /\ vector_len (vsub (cm star_leaf) (Body_pos planet)) = 4.
Proof.
  assert (H : vsub (cm star_leaf) (Body_pos planet) = (-4, 0)).
  { unfold vsub. cbn [cm star_leaf Body_pos rbody_ops rposition planet fst snd
                      Fsub R_arith]. apply f_equal2; lra. }
  split; [exact H |].
  rewrite H, vector_len_x_axis, Rabs_left by lra. lra.
Qed.

Lemma mass_and_centre_of_mass_witness :
  Node_init 2 (0, 0) 3 3 [planet; star] = Ok two_body_tree
  /\ In two_body_tree (nodes two_body_tree)
  /\ total_mass two_body_tree = mass_sum (_bodies two_body_tree)
  /\ ((2 <= length (_bodies two_body_tree))%nat ->
      mass_sum (_bodies two_body_tree) <> 0
      /\ cm two_body_tree
         = (moment_sum fst (_bodies two_body_tree) / mass_sum (_bodies two_body_tree),
            moment_sum snd (_bodies two_body_tree) / mass_sum (_bodies two_body_tree))).
Proof.
  assert (H1 : Node_init 2 (0, 0) 3 3 [planet; star] = Ok two_body_tree)
    by exact two_body_tree_built.
  assert (H2 : In two_body_tree (nodes two_body_tree)) by (simpl; left; reflexivity).
  split; [exact H1 |]. split; [exact H2 |].
  exact (@mass_and_centre_of_mass rbody rbody_ops 2 (0, 0) 3 3 [planet; star]
           two_body_tree two_body_tree H1 H2).
Defined.

Lemma single_body_leaf_witness :
  Node_init 2 (0, 0) 3 3 [planet; star] = Ok two_body_tree
  /\ In planet_leaf (nodes two_body_tree)
  /\ _bodies planet_leaf = [planet]
  /\ children planet_leaf = []
  /\ cm planet_leaf = Body_pos planet.
Proof.
  assert (H1 : Node_init 2 (0, 0) 3 3 [planet; star] = Ok two_body_tree)
    by exact two_body_tree_built.
  assert (H2 : In planet_leaf (nodes two_body_tree))
    by (simpl; right; right; right; left; reflexivity).
  assert (H3 : _bodies planet_leaf = [planet]) by reflexivity.
  split; [exact H1 |]. split; [exact H2 |]. split; [exact H3 |].
  exact (@single_body_leaf R R_arith rbody rbody_ops 2 (0, 0) 3 3 [planet; star]
           two_body_tree planet_leaf planet H1 H2 H3).
Defined.

Lemma coincident_node_skipped_witness :
  (vector_len (vsub (cm planet_leaf) (Body_pos planet)) =? F0)%num = true
  /\ visit 1 two_body_system planet planet_leaf [star_leaf] (0, 0)
     = Ok ([star_leaf], (0, 0))
  /\ forall fuel,
       while_stack 1 (S fuel) two_body_system planet [planet_leaf; star_leaf] (0, 0)
       = while_stack 1 fuel two_body_system planet [star_leaf] (0, 0).
Proof.
  assert (Hd : (vector_len (vsub (cm planet_leaf) (Body_pos planet)) =? F0)%num = true).
  { cbn [cm planet_leaf Body_pos rbody_ops rposition planet].
    rewrite vsub_self, vector_len_x_axis, Rabs_R0.
    apply Reqb_true. reflexivity. }
  split; [exact Hd |].
  exact (@coincident_node_skipped R R_arith rbody rbody_ops 1 two_body_system planet
           planet_leaf [star_leaf] (0, 0) Hd).
Defined.

Lemma root_spans_bodies_witness :
  QuadTree_init 2 [planet; star] 1 5 1000 = Ok two_body_system
  /\ pos (root two_body_system) = (0, 0)
  /\ w (root two_body_system) = h (root two_body_system)
  /\ (exists b, In b [planet; star]
                /\ w (root two_body_system) = vector_len (Body_pos b))
  /\ (forall b, In b [planet; star] ->
                vector_len (Body_pos b) <= w (root two_body_system))
  /\ (forall b, In b [planet; star] -> inside (root two_body_system) (Body_pos b)).
Proof.
  assert (H1 : QuadTree_init 2 [planet; star] 1 5 1000 = Ok two_body_system)
    by exact two_body_system_built.
  split; [exact H1 |].
  exact (@root_spans_bodies rbody rbody_ops 2 [planet; star] 1 5 1000
           two_body_system H1).
Defined.

Lemma zero_mass_node_inert_witness :
  Node_init 2 (0, 0) 3 3 [planet; star] = Ok two_body_tree
  /\ In (empty_child (3 / 2, 3 / 2)) (nodes two_body_tree)
  /\ total_mass (empty_child (3 / 2, 3 / 2)) = 0
  /\ children (empty_child (3 / 2, 3 / 2)) = []
  /\ visit 1 two_body_system planet (empty_child (3 / 2, 3 / 2)) [star_leaf] (0, 0)
     = Ok ([star_leaf], (0, 0)).
Proof.
  assert (H1 : Node_init 2 (0, 0) 3 3 [planet; star] = Ok two_body_tree)
    by exact two_body_tree_built.
  assert (H2 : In (empty_child (3 / 2, 3 / 2)) (nodes two_body_tree))
    by (simpl; right; right; left; reflexivity).
  assert (H3 : total_mass (empty_child (3 / 2, 3 / 2)) = 0) by reflexivity.
  split; [exact H1 |]. split; [exact H2 |]. split; [exact H3 |].
  exact (@zero_mass_node_inert rbody rbody_ops 1 2 (0, 0) 3 3 [planet; star]
           two_body_tree (empty_child (3 / 2, 3 / 2)) two_body_system planet
           [star_leaf] (0, 0) H1 H2 H3).
Defined.

Lemma root_seen_from_planet :
  vsub (cm two_body_tree) (Body_pos planet) = (- (8 / 3), 0)
  /\ vector_len (vsub (cm two_body_tree) (Body_pos planet)) = 8 / 3.
Proof.
  assert (H : vsub (cm two_body_tree) (Body_pos planet) = (- (8 / 3), 0)).
  { unfold vsub. cbn [cm two_body_tree Body_pos rbody_ops rposition planet fst snd
                      Fsub R_arith]. apply f_equal2; lra. }
  split; [exact H |].
  rewrite H, vector_len_x_axis, Rabs_left by lra. lra.
Qed.

(** C7.  The code does not do what C7 and its own comment ("Let's not
    include the body itself in the acceleration calculation") say: only
    a Node at distance 0 is skipped, and the body's own mass and position
    enter through any accepted Node that holds the body.  The
    acceleration computed for the planet is the
    pull of the root Node, accepted as one point mass: [G M d / (d^2 +
    eps^2)^(3/2)] with [M = 3] the mass of the planet and the star
    together and [d = 8/3] the distance to their common centre of mass
    (1/3, 0).  The planet is among the bodies of that Node, so its own
    mass and position enter its own acceleration, which is larger than
    the pull of the star alone (mass 2 at distance 4), the only other
    body there is. *)
Lemma planet_pulled_by_its_own_mass :
  let pull := 8 / Rpower (64 / 9 + 1000 * 1000) (3 / 2) in
  let star_alone := 8 / Rpower (16 + 1000 * 1000) (3 / 2) in
  In planet (_bodies (root two_body_system))
  /\ total_mass (root two_body_system) = rmass planet + rmass star
  /\ acceleration 1 two_body_system planet = Ok (- pull, 0)
  /\ star_alone < pull.
Proof.
  cbv zeta.
  split; [simpl; left; reflexivity |].
  split; [simpl; lra |].
  destruct root_seen_from_planet as [Hvec Hdist].
  assert (Hp1 : 0 < Rpower (64 / 9 + 1000 * 1000) (3 / 2)) by (unfold Rpower; apply exp_pos).
  assert (Hp2 : 0 < Rpower (16 + 1000 * 1000) (3 / 2)) by (unfold Rpower; apply exp_pos).
  split.
  - unfold acceleration.
    cbn [root two_body_system node_count two_body_tree star_leaf planet_leaf
         empty_child children fold_right Nat.add while_stack].
    change (mkNode (0, 0) 3 3 [planet; star] (1 / 3, 0) 3
              [mkNode (- (3 / 2), 3 / 2) (3 / 2) (3 / 2) [star] (-1, 0) 2 [];
               mkNode (3 / 2, 3 / 2) (3 / 2) (3 / 2) [] (0, 0) 0 [];
               mkNode (- (3 / 2), - (3 / 2)) (3 / 2) (3 / 2) [planet] (3, 0) 1 [];
               mkNode (3 / 2, - (3 / 2)) (3 / 2) (3 / 2) [] (0, 0) 0 []])
      with two_body_tree.
    change (mkQuadTree 1 5 1000 [planet; star] two_body_tree) with two_body_system.
    rewrite visit_accepted.
    + cbn [bind fst snd while_stack]. rewrite Hdist, Hvec.
      cbn [total_mass two_body_tree eps two_body_system].
      replace (8 / 3 * (8 / 3) + 1000 * 1000) with (64 / 9 + 1000 * 1000) by field.
      unfold vadd, vscale, np_zeros. cbn [fst snd Fadd Fmul F0 R_arith].
      apply f_equal. apply f_equal2; field; lra.
    + rewrite Hdist. lra.
    + rewrite Hdist. cbn [w h two_body_tree limit two_body_system]. lra.
  - assert (Hlt : Rpower (64 / 9 + 1000 * 1000) (3 / 2)
                  < Rpower (16 + 1000 * 1000) (3 / 2))
      by (apply Rlt_Rpower_l; lra).
    unfold Rdiv. apply Rmult_lt_compat_l; [lra |].
    apply Rinv_lt_contravar; [| exact Hlt].
    apply Rmult_lt_0_compat; assumption.
Qed.

(** The guard does not protect a body from its own leaf either, once the
    body has moved: the tree is built once, so after the first step the
    lone planet is at (3, 4) while its leaf still has its centre of mass
    at (3, 0), at distance 4.  The leaf, which holds no other body, is
    accepted and pulls the planet towards the place it has left. *)
Lemma stale_leaf_pulls_own_body :
  let pull := 4 / Rpower (16 + 1000 * 1000) (3 / 2) in
  step_forward 1 lone_planet_system 0 = Ok lone_planet_after
  /\ bodies lone_planet_after = [planet_moved]
  /\ _bodies (root lone_planet_after) = [planet]
  /\ acceleration 1 lone_planet_after planet_moved = Ok (0, - pull)
  /\ 0 < pull.
Proof.
  cbv zeta.
  assert (Hp : 0 < Rpower (16 + 1000 * 1000) (3 / 2)) by (unfold Rpower; apply exp_pos).
  split; [exact (lone_planet_step 1) |].
  split; [reflexivity |]. split; [reflexivity |].
  assert (Hvec : vsub (cm lone_planet_tree) (Body_pos planet_moved) = (0, -4)).
  { unfold vsub. cbn [cm lone_planet_tree Body_pos rbody_ops rposition planet_moved
                      fst snd Fsub R_arith]. apply f_equal2; lra. }
  assert (Hdist : vector_len (vsub (cm lone_planet_tree) (Body_pos planet_moved)) = 4).
  { rewrite Hvec. unfold vector_len. cbn [fst snd Fmul Fadd np_sqrt R_arith].
    replace (0 * 0 + -4 * -4) with (4 * 4) by ring. apply sqrt_square. lra. }
  split.
  - unfold acceleration.
    cbn [root lone_planet_after node_count lone_planet_tree children fold_right
         Nat.add while_stack].
    change (mkNode (0, 0) 3 3 [planet] (3, 0) 1 []) with lone_planet_tree.
    change (mkQuadTree 1 5 1000 [planet_moved] lone_planet_tree) with lone_planet_after.
    rewrite visit_accepted.
    + cbn [bind fst snd while_stack]. rewrite Hdist, Hvec.
      cbn [total_mass lone_planet_tree eps lone_planet_after].
      replace (4 * 4 + 1000 * 1000) with (16 + 1000 * 1000) by ring.
      unfold vadd, vscale, np_zeros. cbn [fst snd Fadd Fmul F0 R_arith].
      apply f_equal. apply f_equal2; field; lra.
    + rewrite Hdist. lra.
    + rewrite Hdist. cbn [w h lone_planet_tree limit lone_planet_after]. lra.
  - apply Rdiv_lt_0_compat; [lra | exact Hp].
Qed.

(** * Further properties *)

(** ** How the bodies are split, for any arithmetic *)

From Stdlib Require Import Permutation.

Section Splitting.

Context {F : Type} {A : Arith F} {Body : Type} {B : BodyOps F Body}.
Local Open Scope num_scope.

Lemma Quad_eqb_eq (a b : Quad) : Quad_eqb a b = true <-> a = b.
Proof. destruct a, b; simpl; split; intros H; try reflexivity; discriminate. Qed.

Lemma Quad_eqb_refl (a : Quad) : Quad_eqb a a = true.
Proof. now apply Quad_eqb_eq. Qed.

(** With no key twice, [d[quad].append(b)] extends the list of [quad]
    and leaves the others alone. *)
Lemma dict_append_map (d : dict) (quad : Quad) (b : Body) :
  NoDup (map fst d) ->
  dict_append d quad b
  = map (fun kl => (fst kl, if Quad_eqb (fst kl) quad then snd kl ++ [b] else snd kl)) d.
Proof.
  induction d as [| [k l] d IH]; intros Hnd; simpl; [reflexivity |].
  inversion Hnd as [| ? ? Hk Hnd']; subst.
  destruct (Quad_eqb k quad) eqn:Hkq.
  - f_equal. apply Quad_eqb_eq in Hkq. subst k.
    clear IH Hnd Hnd'. induction d as [| [k' l'] d IHd]; simpl; [reflexivity |].
    simpl in Hk.
    destruct (Quad_eqb k' quad) eqn:Hk'.
    + apply Quad_eqb_eq in Hk'. subst k'. exfalso. apply Hk. now left.
    + f_equal. apply IHd. intros Hin. apply Hk. now right.
  - f_equal. now apply IH.
Qed.

(** The loop of [_split_bodies] appends to each list the bodies of its
    quadrant, in the order of the input. *)
Lemma split_loop_filter (q_pos : Vec F) (l : list Body) :
  forall d d', NoDup (map fst d) ->
  split_loop q_pos l d = Ok d' ->
  d' = map (fun kl => (fst kl, snd kl ++ filter (in_quadrant q_pos (fst kl)) l)) d.
Proof.
  induction l as [| b l IH]; intros d d' Hnd H; simpl in H.
  - injection H as <-. simpl.
    rewrite <- (map_id d) at 1. apply map_ext. intros [k g]. simpl.
    now rewrite app_nil_r.
  - apply bind_Ok in H as (quad & Hq & H).
    apply IH in H; [| now rewrite dict_append_keys].
    rewrite H, (dict_append_map d quad b Hnd), map_map.
    apply map_ext. intros [k g]. cbn [fst snd filter].
    assert (Hin : in_quadrant q_pos k b = Quad_eqb quad k)
      by (unfold in_quadrant; now rewrite Hq).
    rewrite Hin.
    destruct (Quad_eqb quad k) eqn:Hqk.
    + apply Quad_eqb_eq in Hqk. subst k. rewrite Quad_eqb_refl.
      now rewrite <- app_assoc.
    + destruct (Quad_eqb k quad) eqn:Hkq; [| reflexivity].
      apply Quad_eqb_eq in Hkq. subst k. now rewrite Quad_eqb_refl in Hqk.
Qed.

Lemma split_loop_classified (q_pos : Vec F) (l : list Body) :
  forall d d', split_loop q_pos l d = Ok d' ->
  Forall (fun b => exists quad, _find_quadrant (Body_pos b) q_pos = Ok quad) l.
Proof.
  induction l as [| b l IH]; intros d d' H; simpl in H; [constructor |].
  apply bind_Ok in H as (quad & Hq & H).
  constructor; [now exists quad | exact (IH _ _ H)].
Qed.

Lemma split_bodies_filter (q_pos : Vec F) (l : list Body) (d : dict) :
  _split_bodies q_pos l = Ok d ->
  d = [ (NW, filter (in_quadrant q_pos NW) l); (NE, filter (in_quadrant q_pos NE) l);
        (SW, filter (in_quadrant q_pos SW) l); (SE, filter (in_quadrant q_pos SE) l) ].
Proof.
  intros H. apply split_loop_filter in H; [exact H |].
  simpl. repeat constructor; simpl; intuition discriminate.
Qed.

(** The four filters share out a list of classified bodies. *)
Lemma filters_permutation (q_pos : Vec F) (l : list Body) :
  Forall (fun b => exists quad, _find_quadrant (Body_pos b) q_pos = Ok quad) l ->
  Permutation
    (filter (in_quadrant q_pos NW) l ++ filter (in_quadrant q_pos NE) l
     ++ filter (in_quadrant q_pos SW) l ++ filter (in_quadrant q_pos SE) l)
    l.
Proof.
  induction 1 as [| b l (quad & Hq) _ IH]; [constructor |].
  assert (Hin : forall k, in_quadrant q_pos k b = Quad_eqb quad k)
    by (intros k; unfold in_quadrant; now rewrite Hq).
  cbn [filter]. rewrite !Hin.
  destruct quad; cbn [Quad_eqb app].
  - now constructor.
  - symmetry. apply Permutation_cons_app. now symmetry.
  - symmetry. rewrite app_assoc. apply Permutation_cons_app.
    rewrite <- app_assoc. now symmetry.
  - symmetry. rewrite !app_assoc. apply Permutation_cons_app.
    rewrite <- !app_assoc. now symmetry.
Qed.

Lemma split_bodies_permutation (q_pos : Vec F) (l : list Body) (d : dict) :
  _split_bodies q_pos l = Ok d -> Permutation (concat (map snd d)) l.
Proof.
  intros H. rewrite (split_bodies_filter _ _ _ H).
  cbn [map snd concat]. rewrite app_nil_r.
  apply filters_permutation. exact (split_loop_classified _ _ _ _ H).
Qed.

(** X1.  When [_split_bodies] returns, the dictionary has the keys NW,
    NE, SW, SE in this order, the list of each key holds, in the order
    of [self._bodies], exactly the bodies that [_find_quadrant] assigns
    to that key, and the four lists together are a rearrangement of
    [self._bodies]: no body is lost and none is listed twice. *)
Theorem split_bodies_partition (q_pos : Vec F) (l : list Body) (d : dict) :
  _split_bodies q_pos l = Ok d ->
  d = map (fun quad => (quad, filter (in_quadrant q_pos quad) l)) [NW; NE; SW; SE]
  /\ Permutation (concat (map snd d)) l.
Proof.
  intros H.
  split; [exact (split_bodies_filter _ _ _ H) |].
  exact (split_bodies_permutation _ _ _ H).
Qed.

Lemma leaf_bodies_children (cs : list (Node F Body)) (d : dict)
    (build : Vec F -> F -> F -> list Body -> Res (Node F Body))
    (centre : Quad -> Vec F) (w0 h0 : F) :
  (forall p w1 h1 bs c, build p w1 h1 bs = Ok c -> Permutation (leaf_bodies c) bs) ->
  Forall2 (fun c item => build (centre (fst item)) w0 h0 (snd item) = Ok c) cs d ->
  Permutation (flat_map leaf_bodies cs) (concat (map snd d)).
Proof.
  intros Hbuild H.
  induction H as [| c item cs d Hc _ IH]; simpl; [constructor |].
  apply Permutation_app; [exact (Hbuild _ _ _ _ _ Hc) | exact IH].
Qed.

Lemma leaf_bodies_built (fuel : nat) :
  forall (p : Vec F) (w0 h0 : F) (bs : list Body) (n : Node F Body),
  Node_init fuel p w0 h0 bs = Ok n -> Permutation (leaf_bodies n) bs.
Proof.
  induction fuel as [| fuel IH]; intros p w0 h0 bs n H; [discriminate |].
  destruct (le_lt_dec 2 (length bs)) as [Hlen | Hlen].
  - destruct (Node_init_many _ _ _ _ _ _ Hlen H) as (fuel' & d & Hf & Hd & _ & Hcs).
    injection Hf as <-.
    pose proof (Forall2_length Hcs) as Hl4.
    rewrite <- (length_map fst d), (split_bodies_keys _ _ _ Hd) in Hl4.
    destruct n as [p' w' h' bs' cm' tm' cs]. cbn [children] in Hcs, Hl4.
    cbn [leaf_bodies children].
    destruct cs as [| c cs]; [discriminate |].
    rewrite <- (split_bodies_permutation _ _ _ Hd).
    exact (leaf_bodies_children (c :: cs) d (Node_init fuel) (child_pos p w0 h0)
             (w0 / F2) (h0 / F2) IH Hcs).
  - destruct bs as [| b [| b' bs]]; simpl in Hlen; try lia;
      simpl in H; injection H as <-; reflexivity.
Qed.

(** X2.  In a tree that the constructor returns, the bodies held by the
    leaves are a rearrangement of the bodies the tree was built from:
    every body sits in exactly one leaf.  A Node without children holds
    at most one body. *)
Theorem leaves_hold_each_body_once (fuel : nat) (p : Vec F) (w0 h0 : F)
    (bs : list Body) (n : Node F Body) :
  Node_init fuel p w0 h0 bs = Ok n ->
  Permutation (leaf_bodies n) bs
  /\ Forall (fun n' => children n' = [] -> (length (_bodies n') <= 1)%nat) (nodes n).
Proof.
  intros H. split; [exact (leaf_bodies_built _ _ _ _ _ _ H) |].
  pose proof (nodes_built _ _ _ _ _ _ H) as Hall.
  apply Forall_impl with (2 := Hall).
  intros n' (fuel' & Hn') Hleaf.
  destruct (le_lt_dec 2 (length (_bodies n'))) as [Hlen | Hlen]; [| lia].
  destruct (Node_init_many _ _ _ _ _ _ Hlen Hn') as (f & d & _ & Hd & _ & Hcs).
  pose proof (Forall2_length Hcs) as Hl4.
  rewrite <- (length_map fst d), (split_bodies_keys _ _ _ Hd), Hleaf in Hl4.
  discriminate.
Qed.

End Splitting.

(** ** Mass from level to level, over the reals *)

Section RealLevels.

Context {Body : Type} {B : BodyOps R Body}.

Lemma moment_sum_app (coord : R * R -> R) (l1 l2 : list Body) :
  moment_sum coord (l1 ++ l2) = moment_sum coord l1 + moment_sum coord l2.
Proof. induction l1 as [| b l1 IH]; simpl; [ring | rewrite IH; ring]. Qed.

Lemma mass_sum_app (l1 l2 : list Body) :
  mass_sum (l1 ++ l2) = mass_sum l1 + mass_sum l2.
Proof. induction l1 as [| b l1 IH]; simpl; [ring | rewrite IH; ring]. Qed.

Lemma moment_sum_permutation (coord : R * R -> R) (l1 l2 : list Body) :
  Permutation l1 l2 -> moment_sum coord l1 = moment_sum coord l2.
Proof.
  induction 1 as [| b l1 l2 _ IH | b b' l | l1 l2 l3 _ IH1 _ IH2]; simpl.
  - reflexivity.
  - now rewrite IH.
  - ring.
  - now rewrite IH1.
Qed.

Lemma mass_sum_permutation (l1 l2 : list Body) :
  Permutation l1 l2 -> mass_sum l1 = mass_sum l2.
Proof.
  induction 1 as [| b l1 l2 _ IH | b b' l | l1 l2 l3 _ IH1 _ IH2]; simpl.
  - reflexivity.
  - now rewrite IH.
  - ring.
  - now rewrite IH1.
Qed.

(** Total mass times centre of mass is the sum of the mass-weighted
    positions, also for the Nodes of no body and of one body. *)
Lemma built_moment (coord : R * R -> R) (n : Node R Body) :
  coord = fst \/ coord = snd ->
  built n ->
  total_mass n * coord (cm n) = moment_sum coord (_bodies n).
Proof.
  intros Hcoord Hb.
  destruct (le_lt_dec 2 (length (_bodies n))) as [Hlen | Hlen].
  - destruct (built_masses n Hb) as [Hm Hcm].
    destruct (Hcm Hlen) as [Hnz Hc]. rewrite Hm, Hc.
    destruct Hcoord as [-> | ->]; cbn [fst snd]; field; exact Hnz.
  - destruct Hb as (fuel & Hn).
    destruct fuel as [| fuel]; [discriminate |].
    destruct (_bodies n) as [| b [| b' l]]; simpl in Hlen; try lia;
      simpl in Hn; injection Hn as <-; unfold py_sum;
      cbn [map fold_left total_mass cm moment_sum Fadd F0 R_arith]; ring.
Qed.

Lemma sum_over_children (f : Node R Body -> R) (g : list Body -> R)
    (cs : list (Node R Body)) (d : dict) :
  g [] = 0 ->
  (forall l1 l2, g (l1 ++ l2) = g l1 + g l2) ->
  Forall2 (fun c item => f c = g (snd item)) cs d ->
  fold_right (fun c s => f c + s) 0 cs = g (concat (map snd d)).
Proof.
  intros Hnil Happ H.
  induction H as [| c item cs d Hc _ IH]; simpl; [now rewrite Hnil |].
  now rewrite Happ, IH, Hc.
Qed.

(** X3.  In a tree that the constructor returns, a Node of two or more
    bodies has the total mass of its children taken together, and its
    total mass times its centre of mass is the sum, over its children,
    of total mass times centre of mass: the centre of mass of a Node is
    the mass-weighted mean of the centres of mass of its children. *)
Theorem children_carry_mass (fuel : nat) (p : R * R) (w0 h0 : R)
    (bs : list Body) (n n' : Node R Body) :
  Node_init fuel p w0 h0 bs = Ok n ->
  In n' (nodes n) ->
  (2 <= length (_bodies n'))%nat ->
  total_mass n' = fold_right (fun c s => total_mass c + s) 0 (children n')
  /\ total_mass n' * fst (cm n')
     = fold_right (fun c s => total_mass c * fst (cm c) + s) 0 (children n')
  /\ total_mass n' * snd (cm n')
     = fold_right (fun c s => total_mass c * snd (cm c) + s) 0 (children n').
Proof.
  intros H Hin Hlen.
  pose proof (nodes_built _ _ _ _ _ _ H) as Hall.
  rewrite Forall_forall in Hall.
  pose proof (Hall _ Hin) as Hb.
  destruct Hb as (fuel' & Hn').
  destruct (Node_init_many _ _ _ _ _ _ Hlen Hn') as (f & d & _ & Hd & _ & Hcs).
  pose proof (split_bodies_permutation _ _ _ Hd) as Hperm.
  assert (Hchild : forall c item,
    Node_init f (child_pos (pos n') (w n') (h n') (fst item))
      (w n' / 2) (h n' / 2) (snd item) = Ok c ->
    built c /\ _bodies c = snd item).
  { intros c item Hc.
    destruct (Node_init_fields _ _ _ _ _ _ Hc) as (Hp & Hw & Hh & Hbs & _).
    split; [| exact Hbs].
    exists f. now rewrite Hp, Hw, Hh, Hbs. }
  assert (Hparent : built n') by (now exists fuel').
  repeat split.
  - rewrite (proj1 (built_masses n' Hparent)), <- (mass_sum_permutation _ _ Hperm).
    symmetry. apply sum_over_children; [reflexivity | apply mass_sum_app |].
    apply Forall2_impl with (2 := Hcs). intros c item Hc.
    destruct (Hchild c item Hc) as [Hbc Hbs].
    now rewrite (proj1 (built_masses c Hbc)), Hbs.
  - rewrite (built_moment fst n' (or_introl eq_refl) Hparent),
      <- (moment_sum_permutation fst _ _ Hperm).
    symmetry. apply sum_over_children; [reflexivity | apply moment_sum_app |].
    apply Forall2_impl with (2 := Hcs). intros c item Hc.
    destruct (Hchild c item Hc) as [Hbc Hbs].
    now rewrite (built_moment fst c (or_introl eq_refl) Hbc), Hbs.
  - rewrite (built_moment snd n' (or_intror eq_refl) Hparent),
      <- (moment_sum_permutation snd _ _ Hperm).
    symmetry. apply sum_over_children; [reflexivity | apply moment_sum_app |].
    apply Forall2_impl with (2 := Hcs). intros c item Hc.
    destruct (Hchild c item Hc) as [Hbc Hbs].
    now rewrite (built_moment snd c (or_intror eq_refl) Hbc), Hbs.
Qed.

End RealLevels.

(** ** Geometry and failures of the construction, for any arithmetic *)

Section Shapes.

Context {F : Type} {A : Arith F} {Body : Type} {B : BodyOps F Body}.
Local Open Scope num_scope.

Lemma Node_init_unfold (fuel : nat) (p : Vec F) (w0 h0 : F) (bs : list Body) :
  (2 <= length bs)%nat ->
  Node_init (S fuel) p w0 h0 bs
  = bind (_split_bodies p bs) (fun d =>
    bind (_calc_cm (py_sum (map Body_m bs)) bs) (fun c =>
    bind (create_loop (Node_init fuel) p w0 h0 d []) (fun cs =>
    Ok (mkNode p w0 h0 bs c (py_sum (map Body_m bs)) cs)))).
Proof.
  intros Hlen. destruct bs as [| b1 [| b2 bs]]; simpl in Hlen; try lia.
  cbn [Node_init _create_child_nodes].
  destruct (_split_bodies p (b1 :: b2 :: bs)); [| reflexivity]. cbn [bind].
  destruct (_calc_cm _ _); [| reflexivity]. cbn [bind].
  destruct (create_loop _ _ _ _ _ _); reflexivity.
Qed.

(** The children of a constructed Node have half its width and height
    and sit at one of the four middle points of [_create_node]. *)
Lemma built_children_geometry (n : Node F Body) :
  built n ->
  Forall (fun c => w c = w n / F2 /\ h c = h n / F2
                   /\ exists quad, pos c = child_pos (pos n) (w n) (h n) quad)
         (children n).
Proof.
  intros (fuel & Hn).
  destruct (le_lt_dec 2 (length (_bodies n))) as [Hlen | Hlen].
  - destruct (Node_init_many _ _ _ _ _ _ Hlen Hn) as (f & d & _ & _ & _ & Hcs).
    induction Hcs as [| c item cs d' Hc _ IH]; constructor; [| exact IH].
    destruct (Node_init_fields _ _ _ _ _ _ Hc) as (Hp & Hw & Hh & _).
    repeat split; [exact Hw | exact Hh | now exists (fst item)].
  - destruct fuel as [| fuel]; [discriminate |].
    destruct (_bodies n) as [| b [| b' l]]; simpl in Hlen; try lia;
      simpl in Hn; injection Hn as <-; constructor.
Qed.

Lemma square_nodes (fuel : nat) :
  forall (p : Vec F) (w0 : F) (bs : list Body) (n : Node F Body),
  Node_init fuel p w0 w0 bs = Ok n -> Forall (fun n' => w n' = h n') (nodes n).
Proof.
  induction fuel as [| fuel IH]; intros p w0 bs n H; [discriminate |].
  destruct (Node_init_fields _ _ _ _ _ _ H) as (_ & Hw & Hh & _).
  destruct n as [p' w' h' bs' cm' tm' cs]. cbn [nodes children].
  constructor; [simpl in *; congruence |].
  destruct (le_lt_dec 2 (length bs)) as [Hlen | Hlen].
  - destruct (Node_init_many _ _ _ _ _ _ Hlen H) as (f & d & Hf & _ & _ & Hcs).
    injection Hf as <-. cbn [children] in Hcs. clear H Hw Hh.
    induction Hcs as [| c item cs d' Hc _ IHcs]; simpl; [constructor |].
    apply Forall_app. split; [exact (IH _ _ _ _ Hc) | exact IHcs].
  - destruct bs as [| b [| b' bs]]; simpl in Hlen; try lia;
      simpl in H; injection H as _ _ _ _ _ _ <-; constructor.
Qed.

(** X4.  Every Node of the tree of a QuadTree is a square ([w == h]),
    and the children of every Node have half its width and half its
    height and lie at [pos] shifted by half the width and half the
    height, to one of the four sides. *)
Theorem quadtree_nodes_square (fuel : nat) (bs : list Body) (dt0 limit0 eps0 : F)
    (self : QuadTree F Body) (n' : Node F Body) :
  QuadTree_init fuel bs dt0 limit0 eps0 = Ok self ->
  In n' (nodes (root self)) ->
  w n' = h n'
  /\ Forall (fun c => w c = w n' / F2 /\ h c = h n' / F2
                      /\ exists quad, pos c = child_pos (pos n') (w n') (h n') quad)
            (children n').
Proof.
  unfold QuadTree_init. intros H Hin.
  apply bind_Ok in H as (dist & _ & H).
  apply bind_Ok in H as (r & Hr & H).
  injection H as <-. cbn [root] in Hin.
  split.
  - pose proof (square_nodes _ _ _ _ _ Hr) as Hsq.
    rewrite Forall_forall in Hsq. exact (Hsq _ Hin).
  - pose proof (nodes_built _ _ _ _ _ _ Hr) as Hall.
    rewrite Forall_forall in Hall.
    exact (built_children_geometry n' (Hall _ Hin)).
Qed.

Lemma bind_Raise (X Y : Type) (c : Res X) (k : X -> Res Y) (e : exn) :
  bind c k = Raise e -> c = Raise e \/ exists x, c = Ok x /\ k x = Raise e.
Proof.
  destruct c as [x | e']; simpl; intros H; [right; eauto |].
  left. now injection H as ->.
Qed.

Lemma find_quadrant_raises (b_pos q_pos : Vec F) (e : exn) :
  _find_quadrant b_pos q_pos = Raise e -> e = Quit.
Proof.
  unfold _find_quadrant.
  repeat match goal with |- context [if ?c then _ else _] => destruct c end;
    intros H; try discriminate; now injection H.
Qed.

Lemma split_loop_raises (q_pos : Vec F) (l : list Body) :
  forall d e, split_loop q_pos l d = Raise e -> e = Quit.
Proof.
  induction l as [| b l IH]; intros d e H; simpl in H; [discriminate |].
  apply bind_Raise in H as [H | (quad & _ & H)].
  - exact (find_quadrant_raises _ _ _ H).
  - exact (IH _ _ H).
Qed.

Lemma calc_cm_raises (t : F) (l : list Body) (e : exn) :
  _calc_cm t l = Raise e -> e = ZeroDivision.
Proof.
  unfold _calc_cm, checked_div. destruct (Feq t F0); simpl; intros H.
  - now injection H.
  - discriminate.
Qed.

Lemma create_loop_raises (P : exn -> Prop)
    (Node_ : Vec F -> F -> F -> list Body -> Res (Node F Body))
    (p : Vec F) (w0 h0 : F) (items : dict) :
  (forall p' w' h' bs e, Node_ p' w' h' bs = Raise e -> P e) ->
  forall cs e, create_loop Node_ p w0 h0 items cs = Raise e -> P e.
Proof.
  intros HN. induction items as [| [quad g] items IH]; intros cs e H; simpl in H.
  - discriminate.
  - apply bind_Raise in H as [H | (cs' & _ & H)]; [| exact (IH _ _ H)].
    destruct quad; unfold _create_node in H;
      apply bind_Raise in H as [H | (c & _ & H)];
      try discriminate; exact (HN _ _ _ _ _ H).
Qed.

(** What the constructor of a Node can raise: the classification's
    [Quit], the division by a zero total mass, or the nesting bound. *)
Lemma Node_init_raises (fuel : nat) :
  forall (p : Vec F) (w0 h0 : F) (bs : list Body) (e : exn),
  Node_init fuel p w0 h0 bs = Raise e ->
  e = Quit \/ e = ZeroDivision \/ e = OutOfFuel.
Proof.
  induction fuel as [| fuel IH]; intros p w0 h0 bs e H.
  - injection H as <-. auto.
  - destruct (le_lt_dec 2 (length bs)) as [Hlen | Hlen].
    + rewrite (Node_init_unfold fuel p w0 h0 bs Hlen) in H.
      apply bind_Raise in H as [H | (d & _ & H)].
      { left. exact (split_loop_raises _ _ _ _ H). }
      apply bind_Raise in H as [H | (c & _ & H)].
      { right; left. exact (calc_cm_raises _ _ _ H). }
      apply bind_Raise in H as [H | (cs & _ & H)]; [| discriminate].
      exact (create_loop_raises _ _ _ _ _ _ (IH) _ _ H).
    + destruct bs as [| b [| b' bs]]; simpl in Hlen; try lia; discriminate.
Qed.

(** X5.  [QuadTree.__init__] raises [ValueError] exactly when it is
    given no body: [max()] of the empty sequence is the only source of
    that exception, and it is reached before any Node is built. *)
Theorem quadtree_value_error_iff_empty (fuel : nat) (bs : list Body)
    (dt0 limit0 eps0 : F) :
  QuadTree_init fuel bs dt0 limit0 eps0 = Raise ValueError <-> bs = [].
Proof.
  split.
  - intros H. destruct bs as [| b bs]; [reflexivity |]. exfalso.
    unfold QuadTree_init in H. cbn [map py_max bind] in H.
    apply bind_Raise in H as [H | (r & _ & H)]; [| discriminate].
    destruct (Node_init_raises _ _ _ _ _ _ H) as [He | [He | He]]; discriminate.
  - intros ->. reflexivity.
Qed.

End Shapes.

(** ** Where the bodies go, over the reals *)

Section RealQuadrants.

Context {Body : Type} {B : BodyOps R Body}.

Lemma div_pos_pos (y x : R) : 0 < x -> 0 < y -> 0 < y / x.
Proof. intros Hx Hy. pose proof (Rinv_0_lt_compat x Hx). unfold Rdiv. nra. Qed.

Lemma div_nonpos_pos (y x : R) : 0 < x -> y <= 0 -> y / x <= 0.
Proof. intros Hx Hy. pose proof (Rinv_0_lt_compat x Hx). unfold Rdiv. nra. Qed.

Lemma div_nonneg_neg (y x : R) : x < 0 -> 0 <= y -> y / x <= 0.
Proof. intros Hx Hy. pose proof (Rinv_lt_0_compat x Hx). unfold Rdiv. nra. Qed.

Lemma div_neg_neg (y x : R) : x < 0 -> y < 0 -> 0 < y / x.
Proof. intros Hx Hy. pose proof (Rinv_lt_0_compat x Hx). unfold Rdiv. nra. Qed.

(** A body to the right of the centre and not above it is classified
    SW; a body to the left of the centre and below it is classified SE. *)
Lemma find_quadrant_lower_right (b_pos q_pos : R * R) :
  fst q_pos < fst b_pos -> snd b_pos <= snd q_pos ->
  _find_quadrant b_pos q_pos = Ok SW.
Proof.
  intros Hx Hy. unfold _find_quadrant, vsub.
  cbn [fst snd np_arctan2 np_pi Flt Fle Fopp Fmul Fsub Fhalf F0 R_arith].
  set (dx := fst b_pos - fst q_pos). set (dy := snd b_pos - snd q_pos).
  assert (Hdx : 0 < dx) by (unfold dx; lra).
  assert (Hdy : dy <= 0) by (unfold dy; lra).
  pose proof PI_RGT_0 as Hpi.
  pose proof (atan_bound (dy / dx)) as Hb.
  pose proof (atan_nonpos _ (div_nonpos_pos dy dx Hdx Hdy)).
  unfold R_arctan2.
  destruct (Rlt_dec 0 dx) as [_ | Hn]; [| lra].
  Rcompare. reflexivity.
Qed.

Lemma find_quadrant_lower_left (b_pos q_pos : R * R) :
  fst b_pos < fst q_pos -> snd b_pos < snd q_pos ->
  _find_quadrant b_pos q_pos = Ok SE.
Proof.
  intros Hx Hy. unfold _find_quadrant, vsub.
  cbn [fst snd np_arctan2 np_pi Flt Fle Fopp Fmul Fsub Fhalf F0 R_arith].
  set (dx := fst b_pos - fst q_pos). set (dy := snd b_pos - snd q_pos).
  assert (Hdx : dx < 0) by (unfold dx; lra).
  assert (Hdy : dy < 0) by (unfold dy; lra).
  pose proof PI_RGT_0 as Hpi.
  pose proof (atan_bound (dy / dx)) as Hb.
  pose proof (atan_pos _ (div_neg_neg dy dx Hdx Hdy)).
  unfold R_arctan2.
  destruct (Rlt_dec 0 dx) as [Hn | _]; [lra |].
  destruct (Rlt_dec dx 0) as [_ | Hn]; [| lra].
  destruct (Rle_dec 0 dy) as [Hn | _]; [lra |].
  Rcompare. reflexivity.
Qed.

(** The answer of [_find_quadrant] read off the signs of the offset. *)
Lemma find_quadrant_signs (b_pos q_pos : R * R) :
  _find_quadrant b_pos q_pos
  = Ok (quadrant_of_signs (fst b_pos - fst q_pos) (snd b_pos - snd q_pos)).
Proof.
  unfold _find_quadrant, vsub.
  cbn [fst snd np_arctan2 np_pi Flt Fle Fopp Fmul Fsub Fhalf F0 R_arith].
  set (dx := fst b_pos - fst q_pos). set (dy := snd b_pos - snd q_pos).
  pose proof PI_RGT_0 as Hpi.
  pose proof (atan_bound (dy / dx)) as Hb.
  unfold quadrant_of_signs, R_arctan2.
  destruct (Rlt_dec 0 dx) as [Hx | Hx].
  - destruct (Rlt_dec 0 dy) as [Hy | Hy].
    + pose proof (atan_pos _ (div_pos_pos dy dx Hx Hy)). Rcompare. reflexivity.
    + assert (Hy' : dy <= 0) by lra.
      pose proof (atan_nonpos _ (div_nonpos_pos dy dx Hx Hy')). Rcompare. reflexivity.
  - destruct (Rlt_dec dx 0) as [Hx' | Hx'].
    + destruct (Rle_dec 0 dy) as [Hy | Hy].
      * pose proof (atan_nonpos _ (div_nonneg_neg dy dx Hx' Hy)). Rcompare. reflexivity.
      * assert (Hy' : dy < 0) by lra.
        pose proof (atan_pos _ (div_neg_neg dy dx Hx' Hy')). Rcompare. reflexivity.
    + destruct (Rlt_dec 0 dy) as [Hy | Hy]; [Rcompare; reflexivity |].
      destruct (Rlt_dec dy 0) as [Hy' | Hy']; Rcompare; reflexivity.
Qed.

(** X6.  Over the reals [_find_quadrant] always returns, and its answer
    depends on the signs of the offset [(dx, dy) = b_pos - q_pos] only:
    NE for [dx >= 0, dy > 0], NW for [dx < 0, dy >= 0], SE for
    [dx <= 0, dy < 0], and SW for [dx > 0, dy <= 0] and for the centre
    itself.  So SW is the answer to the right of the centre and SE the
    answer to the left of it. *)
Theorem find_quadrant_by_signs (b_pos q_pos : R * R) :
  let dx := fst b_pos - fst q_pos in
  let dy := snd b_pos - snd q_pos in
  exists quad,
    _find_quadrant b_pos q_pos = Ok quad
    /\ (quad = NE <-> 0 <= dx /\ 0 < dy)
    /\ (quad = NW <-> dx < 0 /\ 0 <= dy)
    /\ (quad = SE <-> dx <= 0 /\ dy < 0)
    /\ (quad = SW <-> (0 < dx /\ dy <= 0) \/ (dx = 0 /\ dy = 0)).
Proof.
  intros dx dy. rewrite find_quadrant_signs. fold dx dy.
  eexists. split; [reflexivity |].
  unfold quadrant_of_signs.
  destruct (Rlt_dec 0 dx); destruct (Rlt_dec dx 0); destruct (Rlt_dec 0 dy);
    destruct (Rle_dec 0 dy); destruct (Rlt_dec dy 0);
    try lra;
    repeat split; intros; try discriminate; try reflexivity; try lra;
    try (left; lra); try (right; lra);
    match goal with
    | H : _ \/ _ |- _ => destruct H; lra
    end.
Qed.

End RealQuadrants.

Section RealBehaviour.

Context {Body : Type} {B : BodyOps R Body}.
Variable big_g : R.

Lemma split_bodies_returns (q_pos : R * R) (l : list Body) :
  exists d, _split_bodies q_pos l = Ok d.
Proof.
  unfold _split_bodies. generalize (@b_quads0 Body).
  induction l as [| b l IH]; intros d0; simpl; [now exists d0 |].
  destruct (find_quadrant_real_total (Body_pos b) q_pos) as [quad ->].
  cbn [bind]. apply IH.
Qed.

(** The four children of a constructed Node of two or more bodies, with
    what each was built from. *)
Lemma four_children (fuel : nat) (p : R * R) (w0 h0 : R) (bs : list Body)
    (n : Node R Body) :
  Node_init fuel p w0 h0 bs = Ok n ->
  (2 <= length bs)%nat ->
  exists nw ne sw se,
    children n = [nw; ne; sw; se]
    /\ Forall2 (fun c quad =>
                  pos c = child_pos p w0 h0 quad /\ w c = w0 / 2 /\ h c = h0 / 2
                  /\ _bodies c = filter (in_quadrant p quad) bs)
               [nw; ne; sw; se] [NW; NE; SW; SE].
Proof.
  intros H Hlen.
  destruct (Node_init_many _ _ _ _ _ _ Hlen H) as (f & d & _ & Hd & _ & Hcs).
  rewrite (split_bodies_filter _ _ _ Hd) in Hcs.
  inversion Hcs as [| nw i1 cs1 d1 H1 Hcs1]; subst.
  inversion Hcs1 as [| ne i2 cs2 d2 H2 Hcs2]; subst.
  inversion Hcs2 as [| sw i3 cs3 d3 H3 Hcs3]; subst.
  inversion Hcs3 as [| se i4 cs4 d4 H4 Hcs4]; subst.
  inversion Hcs4; subst.
  exists nw, ne, sw, se. split; [congruence |].
  cbn [fst snd] in *.
  destruct (Node_init_fields _ _ _ _ _ _ H1) as (Hp1 & Hw1 & Hh1 & Hb1 & _).
  destruct (Node_init_fields _ _ _ _ _ _ H2) as (Hp2 & Hw2 & Hh2 & Hb2 & _).
  destruct (Node_init_fields _ _ _ _ _ _ H3) as (Hp3 & Hw3 & Hh3 & Hb3 & _).
  destruct (Node_init_fields _ _ _ _ _ _ H4) as (Hp4 & Hw4 & Hh4 & Hb4 & _).
  repeat (constructor; [tauto |]). constructor.
Qed.

(** X7.  A body that lies below the centre of a Node of two or more
    bodies, and not straight below it, is handed to a child whose region
    does not contain it: to the right of the centre it is classified SW
    and goes to the child placed to the lower left, to the left of the
    centre it is classified SE and goes to the child placed to the lower
    right. *)
Theorem body_below_centre_misplaced (fuel : nat) (p : R * R) (w0 h0 : R)
    (bs : list Body) (n : Node R Body) (b : Body) :
  Node_init fuel p w0 h0 bs = Ok n ->
  (2 <= length bs)%nat ->
  In b bs ->
  snd (Body_pos b) < snd p ->
  fst (Body_pos b) <> fst p ->
  exists c,
    In c (children n)
    /\ In b (_bodies c)
    /\ pos c = child_pos p w0 h0 (if Rlt_dec (fst p) (fst (Body_pos b)) then SW else SE)
    /\ ~ inside c (Body_pos b).
Proof.
  intros H Hlen Hin Hy Hx.
  destruct (four_children _ _ _ _ _ _ H Hlen) as (nw & ne & sw & se & Hcs & Hall).
  inversion Hall as [| ? ? ? ? _ Hall1]; subst.
  inversion Hall1 as [| ? ? ? ? _ Hall2]; subst.
  inversion Hall2 as [| ? ? ? ? (Hp3 & Hw3 & _ & Hb3) Hall3]; subst.
  inversion Hall3 as [| ? ? ? ? (Hp4 & Hw4 & _ & Hb4) _]; subst.
  destruct (Rlt_dec (fst p) (fst (Body_pos b))) as [Hr | Hr].
  - exists sw. rewrite Hcs.
    assert (Hq : _find_quadrant (Body_pos b) p = Ok SW)
      by (apply find_quadrant_lower_right; lra).
    repeat split.
    + simpl. auto.
    + rewrite Hb3. apply filter_In. split; [exact Hin |].
      unfold in_quadrant. now rewrite Hq.
    + exact Hp3.
    + unfold inside. rewrite Hp3, Hw3.
      cbn [child_pos fst snd Fsub Fdiv F2 R_arith].
      intros [Habs _]. apply Rabs_le_bounds in Habs. lra.
  - exists se. rewrite Hcs.
    assert (Hq : _find_quadrant (Body_pos b) p = Ok SE)
      by (apply find_quadrant_lower_left; lra).
    repeat split.
    + simpl. auto.
    + rewrite Hb4. apply filter_In. split; [exact Hin |].
      unfold in_quadrant. now rewrite Hq.
    + exact Hp4.
    + unfold inside. rewrite Hp4, Hw4.
      cbn [child_pos fst snd Fadd Fsub Fdiv F2 R_arith].
      intros [Habs _]. apply Rabs_le_bounds in Habs. lra.
Qed.

Ltac sign_cases :=
  repeat match goal with
  | H : context [if Rlt_dec ?a ?b then _ else _] |- _ => destruct (Rlt_dec a b)
  | H : context [if Rle_dec ?a ?b then _ else _] |- _ => destruct (Rle_dec a b)
  end.

(** X8.  A body that [_find_quadrant] puts into NE or NW, and that lies
    in the region of a Node of two or more bodies, lies in the region of
    the child it is handed to. *)
Theorem northern_body_well_placed (fuel : nat) (p : R * R) (w0 h0 : R)
    (bs : list Body) (n : Node R Body) (b : Body) (quad : Quad) :
  Node_init fuel p w0 h0 bs = Ok n ->
  (2 <= length bs)%nat ->
  In b bs ->
  _find_quadrant (Body_pos b) p = Ok quad ->
  quad = NE \/ quad = NW ->
  inside n (Body_pos b) ->
  exists c,
    In c (children n)
    /\ In b (_bodies c)
    /\ pos c = child_pos p w0 h0 quad
    /\ inside c (Body_pos b).
Proof.
  intros H Hlen Hin Hq Hquad [Hix Hiy].
  destruct (Node_init_fields _ _ _ _ _ _ H) as (Hp & Hw & Hh & _).
  rewrite Hp, Hw in Hix. rewrite Hp, Hh in Hiy.
  apply Rabs_le_bounds in Hix. apply Rabs_le_bounds in Hiy.
  destruct (four_children _ _ _ _ _ _ H Hlen) as (nw & ne & sw & se & Hcs & Hall).
  inversion Hall as [| ? ? ? ? (Hp1 & Hw1 & Hh1 & Hb1) Hall1]; subst.
  inversion Hall1 as [| ? ? ? ? (Hp2 & Hw2 & Hh2 & Hb2) _]; subst.
  pose proof Hq as Hsigns. rewrite find_quadrant_signs in Hsigns.
  injection Hsigns as Hsigns. unfold quadrant_of_signs in Hsigns.
  destruct Hquad as [-> | ->].
  - exists ne. rewrite Hcs. repeat split.
    + simpl. auto.
    + rewrite Hb2. apply filter_In. split; [exact Hin |].
      unfold in_quadrant. now rewrite Hq.
    + exact Hp2.
    + rewrite Hp2, Hw2. cbn [child_pos fst snd Fadd Fdiv F2 R_arith].
      apply Rabs_le.
      sign_cases; try discriminate; lra.
    + rewrite Hp2, Hh2. cbn [child_pos fst snd Fadd Fdiv F2 R_arith].
      apply Rabs_le.
      sign_cases; try discriminate; lra.
  - exists nw. rewrite Hcs. repeat split.
    + simpl. auto.
    + rewrite Hb1. apply filter_In. split; [exact Hin |].
      unfold in_quadrant. now rewrite Hq.
    + exact Hp1.
    + rewrite Hp1, Hw1. cbn [child_pos fst snd Fadd Fsub Fdiv F2 R_arith].
      apply Rabs_le.
      sign_cases; try discriminate; lra.
    + rewrite Hp1, Hh1. cbn [child_pos fst snd Fadd Fsub Fdiv F2 R_arith].
      apply Rabs_le.
      sign_cases; try discriminate; lra.
Qed.

End RealBehaviour.

(** ** Runs of the constructor and of a step, over the reals *)

Section RealRuns.

Context {Body : Type} {B : BodyOps R Body}.
Variable big_g : R.

Lemma filter_coincident (p0 q_pos : R * R) (quad : Quad) (bs : list Body) :
  (forall b, In b bs -> Body_pos b = p0) ->
  _find_quadrant p0 q_pos = Ok quad ->
  forall k, filter (in_quadrant q_pos k) bs = if Quad_eqb quad k then bs else [].
Proof.
  intros Hpos Hq k.
  induction bs as [| b bs IH]; [now destruct (Quad_eqb quad k) |].
  cbn [filter]. unfold in_quadrant at 1.
  rewrite (Hpos b (or_introl eq_refl)), Hq.
  rewrite IH by (intros b' Hb'; apply Hpos; now right).
  now destruct (Quad_eqb quad k).
Qed.

Lemma coincident_bodies_nest (p0 : R * R) (bs : list Body) :
  (2 <= length bs)%nat ->
  (forall b, In b bs -> Body_pos b = p0) ->
  mass_sum bs <> 0 ->
  forall (fuel : nat) (p : R * R) (w0 h0 : R),
  Node_init fuel p w0 h0 bs = Raise OutOfFuel.
Proof.
  intros Hlen Hpos Hm.
  induction fuel as [| fuel IH]; intros p w0 h0; [reflexivity |].
  rewrite (Node_init_unfold fuel p w0 h0 bs Hlen).
  destruct (split_bodies_returns p bs) as [d Hd].
  rewrite Hd. cbn [bind].
  rewrite (split_bodies_filter _ _ _ Hd).
  destruct (find_quadrant_real_total p0 p) as [quad Hq].
  rewrite !(filter_coincident p0 p quad bs Hpos Hq).
  unfold _calc_cm, checked_div. rewrite py_sum_masses.
  cbn [Feq F0 R_arith]. rewrite (Reqb_false _ _ Hm). cbn [bind].
  destruct fuel as [| fuel].
  - destruct quad; reflexivity.
  - destruct quad; cbn [Quad_eqb create_loop _create_node];
      repeat (first [rewrite Node_init_nil | rewrite IH];
              cbn [bind create_loop _create_node]);
      reflexivity.
Qed.

(** X9.  The constructors do not return for two or more bodies that
    all lie at one position (with a total mass other than 0): at every
    level all of them fall into the same quadrant, so the constructor
    calls nest without end, whatever bound is put on the depth. *)
Theorem coincident_bodies_never_built (p0 : R * R) (bs : list Body) :
  (2 <= length bs)%nat ->
  (forall b, In b bs -> Body_pos b = p0) ->
  mass_sum bs <> 0 ->
  (forall (fuel : nat) (p : R * R) (w0 h0 : R),
     Node_init fuel p w0 h0 bs = Raise OutOfFuel)
  /\ (forall (fuel : nat) (dt0 limit0 eps0 : R),
        QuadTree_init fuel bs dt0 limit0 eps0 = Raise OutOfFuel).
Proof.
  intros Hlen Hpos Hm.
  pose proof (coincident_bodies_nest p0 bs Hlen Hpos Hm) as Hnest.
  split; [exact Hnest |].
  intros fuel dt0 limit0 eps0. unfold QuadTree_init.
  destruct bs as [| b bs]; [simpl in Hlen; lia |].
  cbn [map py_max bind]. now rewrite Hnest.
Qed.

(** X10.  For two or more bodies whose masses add up to 0 (massless
    test bodies, say) the constructors raise [ZeroDivisionError]: the
    bodies are split, then [_calc_cm] divides 1 by [total_mass]. *)
Theorem massless_bodies_raise (bs : list Body) :
  (2 <= length bs)%nat ->
  mass_sum bs = 0 ->
  (forall (fuel : nat) (p : R * R) (w0 h0 : R),
     Node_init (S fuel) p w0 h0 bs = Raise ZeroDivision)
  /\ (forall (fuel : nat) (dt0 limit0 eps0 : R),
        QuadTree_init (S fuel) bs dt0 limit0 eps0 = Raise ZeroDivision).
Proof.
  intros Hlen Hm.
  assert (Hnode : forall (fuel : nat) (p : R * R) (w0 h0 : R),
            Node_init (S fuel) p w0 h0 bs = Raise ZeroDivision).
  { intros fuel p w0 h0.
    rewrite (Node_init_unfold fuel p w0 h0 bs Hlen).
    destruct (split_bodies_returns p bs) as [d ->]. cbn [bind].
    unfold _calc_cm, checked_div. rewrite py_sum_masses.
    cbn [Feq F0 R_arith]. now rewrite (Reqb_true _ _ Hm). }
  split; [exact Hnode |].
  intros fuel dt0 limit0 eps0. unfold QuadTree_init.
  destruct bs as [| b bs]; [simpl in Hlen; lia |].
  cbn [map py_max bind]. now rewrite Hnode.
Qed.

Lemma step_loop_each (self : QuadTree R Body) (n : Z) (todo : list Body) :
  exists done,
    step_loop big_g self n todo = Ok done
    /\ Forall2 (fun b b' => exists acc,
                  acceleration big_g self b = Ok acc
                  /\ b' = Body_update b acc (dt self) n) todo done.
Proof.
  induction todo as [| body todo (done & Hdone & Hall)]; cbn [step_loop].
  - exists []. split; [reflexivity | constructor].
  - destruct (while_stack_returns big_g self body (node_count (root self))
                [root self] np_zeros) as [a Ha].
    { simpl. lia. }
    fold (acceleration big_g self body) in Ha.
    rewrite Ha. cbn [bind]. rewrite Hdone. cbn [bind].
    eexists. split; [reflexivity |].
    constructor; [now exists a | exact Hall].
Qed.

(** X11.  Over the reals [step_forward] always returns: the loop over
    the stack ends within one iteration per Node of the tree and no
    division by zero occurs.  It leaves [dt], [limit], [eps] and the
    tree as they were and replaces every body, in order, by the result
    of [update] on that body with the acceleration computed for it. *)
Theorem step_forward_updates_each_body (self : QuadTree R Body) (n : Z) :
  exists bodies',
    step_forward big_g self n
    = Ok (mkQuadTree (dt self) (limit self) (eps self) bodies' (root self))
    /\ Forall2 (fun b b' => exists acc,
                  acceleration big_g self b = Ok acc
                  /\ b' = Body_update b acc (dt self) n)
               (bodies self) bodies'.
Proof.
  destruct (step_loop_each self n (bodies self)) as (done & Hdone & Hall).
  exists done. split; [| exact Hall].
  unfold step_forward. now rewrite Hdone.
Qed.

(** X12.  A QuadTree of a single body is always built (one constructor
    call is enough), the acceleration computed for that body is zero,
    and a step hands the body to [update] with that zero acceleration. *)
Theorem lone_body_feels_nothing (fuel : nat) (b : Body) (dt0 limit0 eps0 : R)
    (n : Z) :
  exists self,
    QuadTree_init (S fuel) [b] dt0 limit0 eps0 = Ok self
    /\ acceleration big_g self b = Ok (0, 0)
    /\ step_forward big_g self n
       = Ok (mkQuadTree dt0 limit0 eps0 [Body_update b (0, 0) dt0 n] (root self)).
Proof.
  eexists. split; [reflexivity |].
  assert (Hacc : forall w0 l0 e0 t0,
    acceleration big_g
      (mkQuadTree t0 l0 e0 [b]
         (mkNode (F0, F0) w0 w0 [b] (Body_pos b) (py_sum [Body_m b]) []))
      b = Ok (0, 0)).
  { intros w0 l0 e0 t0. unfold acceleration.
    cbn [root node_count children fold_right Nat.add while_stack].
    rewrite (own_leaf_skipped big_g _ b _ [] np_zeros).
    - reflexivity.
    - exists 1%nat. reflexivity.
    - reflexivity. }
  cbn [fst snd]. split; [apply Hacc |].
  unfold step_forward. cbn [bodies step_loop].
  rewrite Hacc. reflexivity.
Qed.

End RealRuns.

(** ** A body that cannot be classified *)

Section Unclassified.

Context {F : Type} {A : Arith F} {Body : Type} {B : BodyOps F Body}.

Lemma split_loop_quits (q_pos : Vec F) (pre post : list Body) (b : Body) :
  _find_quadrant (Body_pos b) q_pos = Raise Quit ->
  forall d, split_loop q_pos (pre ++ b :: post) d = Raise Quit.
Proof.
  intros Hb. induction pre as [| b0 pre IH]; intros d; simpl.
  - now rewrite Hb.
  - destruct (_find_quadrant (Body_pos b0) q_pos) as [quad | e] eqn:H0; cbn [bind].
    + apply IH.
    + now rewrite (find_quadrant_raises _ _ _ H0).
Qed.

(** One body that [_find_quadrant] cannot classify from the origin, in a
    list of two or more, makes [QuadTree.__init__] end in [quit(-1)]. *)
Lemma QuadTree_init_quits_on (fuel : nat) (pre post : list Body) (b : Body)
    (dt0 limit0 eps0 : F) :
  _find_quadrant (Body_pos b) (F0, F0) = Raise Quit ->
  (1 <= length pre + length post)%nat ->
  QuadTree_init (S fuel) (pre ++ b :: post) dt0 limit0 eps0 = Raise Quit.
Proof.
  intros Hb Hlen. unfold QuadTree_init.
  assert (Hmax : exists dist,
    py_max (map (fun b => vector_len (Body_pos b)) (pre ++ b :: post)) = Ok dist).
  { destruct pre; simpl; eauto. }
  destruct Hmax as [dist ->]. cbn [bind].
  rewrite Node_init_unfold by (rewrite length_app; simpl; lia).
  unfold _split_bodies. now rewrite split_loop_quits.
Qed.

End Unclassified.

Module Binary64Edge.
Import PrimFloat FloatOps FloatAxioms SpecFloat.
Import Binary64.
Local Open Scope float_scope.

Lemma sub_nan_l (y : float) : nan - y = nan.
Proof. apply Prim2SF_inj. rewrite sub_spec. reflexivity. Qed.

Lemma sub_nan_r (x : float) : x - nan = nan.
Proof.
  apply Prim2SF_inj. rewrite sub_spec.
  change (Prim2SF nan) with S754_nan.
  now destruct (Prim2SF x).
Qed.

Lemma arctan2_nan_r (L : Libm) (y : float) : arctan2 L y nan = nan.
Proof. unfold arctan2. change (is_nan nan) with true. now rewrite orb_true_r. Qed.

Lemma arctan2_nan_l (L : Libm) (x : float) : arctan2 L nan x = nan.
Proof. reflexivity. Qed.

Lemma find_quadrant_nan (L : Libm) (c : float) (q : float * float) :
  @_find_quadrant float (arith L) (nan, c) q = Raise Quit
  /\ @_find_quadrant float (arith L) (c, nan) q = Raise Quit.
Proof.
  unfold _find_quadrant, vsub. cbn [fst snd Fsub np_arctan2 arith].
  rewrite !sub_nan_l, arctan2_nan_r, arctan2_nan_l. split; vm_compute; reflexivity.
Qed.

(** C9.  The code does not do what C9 says on binary64, where a zero
    has a sign.  A body at (-0., -0.) is at the centre (0., 0.): its
    coordinates compare equal to the centre's.  Yet its offset is
    (-0., -0.), whose angle [np.arctan2(-0., -0.)] is [-np.pi] and not 0:
    all four tests fail and [_find_quadrant] reaches the branch it calls
    unreachable, [print(...); quit(-1)].  A body at (-0., 0.) is at the
    centre as well; its angle is [np.pi] and it is classified NW, not
    SW.  The first case is reached through the constructors, whose root
    has its centre at (0., 0.): [QuadTree.__init__] quits on any list of
    two or more bodies that holds a body at (-0., -0.). *)
Theorem coincident_negative_zero_quits (L : Libm) :
  (-0 =? 0) = true
  /\ @vsub float (arith L) (-0, -0) (0, 0) = (-0, -0)
  /\ arctan2 L (-0) (-0) = - pi
  /\ @_find_quadrant float (arith L) (-0, -0) (0, 0) = Raise Quit
  /\ @_find_quadrant float (arith L) (-0, 0) (0, 0) = Ok NW
  /\ (forall (m : float) (v : float * float) (other : body) (pre post : list body)
             (fuel : nat) (dt0 limit0 eps0 : float),
        let at_centre := {| mass := m; position := (-0, -0); velocity := v |} in
        @QuadTree_init float (arith L) body (bodies_ops L) (S fuel)
          (at_centre :: other :: post) dt0 limit0 eps0 = Raise Quit
        /\ @QuadTree_init float (arith L) body (bodies_ops L) (S fuel)
             (other :: pre ++ at_centre :: post) dt0 limit0 eps0 = Raise Quit).
Proof.
  assert (Hq : @_find_quadrant float (arith L) (-0, -0) (0, 0) = Raise Quit)
    by (vm_compute; reflexivity).
  split; [reflexivity |]. split; [reflexivity |]. split; [reflexivity |].
  split; [exact Hq |]. split; [vm_compute; reflexivity |].
  intros m v other pre post fuel dt0 limit0 eps0 at_centre. split.
  - apply (@QuadTree_init_quits_on float (arith L) body (bodies_ops L) fuel
             [] (other :: post) at_centre); [exact Hq | simpl; lia].
  - apply (@QuadTree_init_quits_on float (arith L) body (bodies_ops L) fuel
             (other :: pre) post at_centre); [exact Hq | simpl; lia].
Qed.

(** X13.  On binary64 a body with a NaN coordinate cannot be classified:
    every comparison with the NaN angle is false and [_find_quadrant]
    ends in [print(...); quit(-1)].  So does [QuadTree.__init__] on any
    list of two or more bodies that holds such a body, wherever it
    stands in the list. *)
Theorem nan_coordinate_quits (L : Libm) (c m : float) (v q : float * float)
    (other : body) (pre post : list body) (fuel : nat) (dt0 limit0 eps0 : float) :
  let lost_x := {| mass := m; position := (nan, c); velocity := v |} in
  let lost_y := {| mass := m; position := (c, nan); velocity := v |} in
  @_find_quadrant float (arith L) (nan, c) q = Raise Quit
  /\ @_find_quadrant float (arith L) (c, nan) q = Raise Quit
  /\ @QuadTree_init float (arith L) body (bodies_ops L) (S fuel)
       (lost_x :: other :: post) dt0 limit0 eps0 = Raise Quit
  /\ @QuadTree_init float (arith L) body (bodies_ops L) (S fuel)
       (other :: pre ++ lost_x :: post) dt0 limit0 eps0 = Raise Quit
  /\ @QuadTree_init float (arith L) body (bodies_ops L) (S fuel)
       (lost_y :: other :: post) dt0 limit0 eps0 = Raise Quit
  /\ @QuadTree_init float (arith L) body (bodies_ops L) (S fuel)
       (other :: pre ++ lost_y :: post) dt0 limit0 eps0 = Raise Quit.
Proof.
  intros lost_x lost_y.
  destruct (find_quadrant_nan L c q) as [Hx Hy].
  destruct (find_quadrant_nan L c (0, 0)) as [Hx0 Hy0].
  split; [exact Hx |]. split; [exact Hy |].
  split.
  { apply (@QuadTree_init_quits_on float (arith L) body (bodies_ops L) fuel
             [] (other :: post) lost_x); [exact Hx0 | simpl; lia]. }
  split.
  { apply (@QuadTree_init_quits_on float (arith L) body (bodies_ops L) fuel
             (other :: pre) post lost_x); [exact Hx0 | simpl; lia]. }
  split.
  { apply (@QuadTree_init_quits_on float (arith L) body (bodies_ops L) fuel
             [] (other :: post) lost_y); [exact Hy0 | simpl; lia]. }
  apply (@QuadTree_init_quits_on float (arith L) body (bodies_ops L) fuel
           (other :: pre) post lost_y); [exact Hy0 | simpl; lia].
Qed.

End Binary64Edge.

(** ** The loop over the stack and the recursive walk *)

Section RealWalk.

Context {Body : Type} {B : BodyOps R Body}.
Variable big_g : R.

Lemma tree_pull_unfold (self : QuadTree R Body) (body : Body) (node : Node R Body) :
  tree_pull big_g self body node
  = let vec := vsub (cm node) (Body_pos body) in
    let dist := vector_len vec in
    if Req_dec_T dist 0 then (0, 0)
    else if Rlt_dec ((w node + h node) / 2 / dist) (limit self) then
      vscale (big_g * total_mass node * dist
              / Rpower (dist * dist + eps self * eps self) (3 / 2))
             (vscale (/ dist) vec)
    else fold_right (fun c s => vadd (tree_pull big_g self body c) s) (0, 0)
                    (children node).
Proof. destruct node; reflexivity. Qed.

Lemma vadd_zero_r (a : R * R) : vadd a (0, 0) = a.
Proof. destruct a as [x y]. unfold vadd. cbn [fst snd Fadd R_arith]. f_equal; lra. Qed.

Lemma vadd_zero_l (a : R * R) : vadd (0, 0) a = a.
Proof. destruct a as [x y]. unfold vadd. cbn [fst snd Fadd R_arith]. f_equal; lra. Qed.

Lemma vadd_assoc (a b c : R * R) : vadd (vadd a b) c = vadd a (vadd b c).
Proof. unfold vadd. cbn [fst snd Fadd R_arith]. f_equal; lra. Qed.

(** The sum of the pulls of a list of Nodes does not depend on the order
    in which the children were pushed. *)
Lemma pull_sum_pushed (f : Node R Body -> R * R) (cs st : list (Node R Body)) :
  fold_right (fun c s => vadd (f c) s) (0, 0) (rev cs ++ st)
  = vadd (fold_right (fun c s => vadd (f c) s) (0, 0) cs)
         (fold_right (fun c s => vadd (f c) s) (0, 0) st).
Proof.
  revert st. induction cs as [| c cs IH]; intros st; cbn [rev fold_right app].
  - now rewrite vadd_zero_l.
  - rewrite <- app_assoc. cbn [app]. rewrite IH. cbn [fold_right].
    unfold vadd. cbn [fst snd Fadd R_arith]. apply f_equal2; lra.
Qed.

Lemma while_stack_pull (self : QuadTree R Body) (body : Body) (fuel : nat) :
  forall (st : list (Node R Body)) (acc : R * R),
  (stack_count st <= fuel)%nat ->
  while_stack big_g fuel self body st acc
  = Ok (vadd acc (fold_right (fun c s => vadd (tree_pull big_g self body c) s)
                             (0, 0) st)).
Proof.
  induction fuel as [| fuel IH]; intros st acc Hle.
  - destruct st as [| [? ? ? ? ? ? cs] st]; simpl in *; [| lia].
    now rewrite vadd_zero_r.
  - destruct st as [| node st]; [simpl; now rewrite vadd_zero_r |].
    cbn [while_stack fold_right].
    pose proof (visit_count big_g self body node st acc) as Hv.
    rewrite (tree_pull_unfold self body node). cbv zeta.
    destruct (Req_dec_T (vector_len (vsub (cm node) (Body_pos body))) 0) as [Hd | Hd].
    + assert (Hvis : visit big_g self body node st acc = Ok (st, acc)).
      { unfold visit. cbn [Feq F0 R_arith]. now rewrite (Reqb_true _ _ Hd). }
      rewrite Hvis in Hv |- *. cbn [bind fst snd] in *.
      rewrite IH by lia. now rewrite vadd_zero_l.
    + destruct (Rlt_dec ((w node + h node) / 2
                         / vector_len (vsub (cm node) (Body_pos body))) (limit self))
        as [Hacc | Hrej].
      * rewrite (visit_accepted big_g self body node st acc Hd Hacc) in Hv |- *.
        cbn [bind fst snd] in *. rewrite IH by lia.
        now rewrite vadd_assoc.
      * rewrite (visit_rejected big_g self body node st acc Hd Hrej) in Hv |- *.
        cbn [bind fst snd] in *. rewrite IH by lia.
        now rewrite pull_sum_pushed.
Qed.

(** X14.  Over the reals the loop of [step_forward] over the explicit
    stack computes the recursive walk of the tree: the acceleration of a
    body is the pull of the root, where a Node at the body's position
    pulls nothing, an accepted Node pulls as one point mass, and any
    other Node pulls as the sum of its children.  The order in which the
    stack is popped does not change the sum. *)
Theorem loop_computes_tree_walk (self : QuadTree R Body) (body : Body) :
  acceleration big_g self body = Ok (tree_pull big_g self body (root self)).
Proof.
  unfold acceleration.
  rewrite while_stack_pull by (simpl; lia).
  cbn [fold_right]. unfold np_zeros. cbn [F0 R_arith].
  now rewrite vadd_zero_l, vadd_zero_r.
Qed.

Lemma nonneg_nodes (fuel : nat) :
  forall (p : R * R) (w0 h0 : R) (bs : list Body) (n : Node R Body),
  Node_init fuel p w0 h0 bs = Ok n -> 0 <= w0 -> 0 <= h0 ->
  Forall (fun n' => 0 <= w n' /\ 0 <= h n') (nodes n).
Proof.
  induction fuel as [| fuel IH]; intros p w0 h0 bs n H Hw0 Hh0; [discriminate |].
  destruct (Node_init_fields _ _ _ _ _ _ H) as (_ & Hw & Hh & _).
  destruct n as [p' w' h' bs' cm' tm' cs]. cbn [nodes children].
  constructor; [simpl in *; subst; now split |].
  destruct (le_lt_dec 2 (length bs)) as [Hlen | Hlen].
  - destruct (Node_init_many _ _ _ _ _ _ Hlen H) as (f & d & Hf & _ & _ & Hcs).
    injection Hf as <-. cbn [children] in Hcs. clear H Hw Hh.
    induction Hcs as [| c item cs d' Hc _ IHcs]; simpl; [constructor |].
    apply Forall_app. split; [| exact IHcs].
    apply (IH _ _ _ _ _ Hc); cbn [Fdiv F2 R_arith]; lra.
  - destruct bs as [| b [| b' bs]]; simpl in Hlen; try lia;
      simpl in H; injection H as _ _ _ _ _ _ <-; constructor.
Qed.

Lemma while_stack_all_rejected (self : QuadTree R Body) (body : Body) (fuel : nat) :
  limit self <= 0 ->
  forall (st : list (Node R Body)) (acc : R * R),
  Forall (fun n => Forall (fun n' => 0 <= w n' /\ 0 <= h n') (nodes n)) st ->
  (stack_count st <= fuel)%nat ->
  while_stack big_g fuel self body st acc = Ok acc.
Proof.
  intros Hlim.
  induction fuel as [| fuel IH]; intros st acc Hall Hle.
  - destruct st as [| [? ? ? ? ? ? cs] st]; simpl in *; [reflexivity | lia].
  - destruct st as [| node st]; [reflexivity |].
    cbn [while_stack].
    pose proof (visit_count big_g self body node st acc) as Hv.
    inversion Hall as [| ? ? Hnode Hst]; subst.
    destruct (Req_dec_T (vector_len (vsub (cm node) (Body_pos body))) 0) as [Hd | Hd].
    + assert (Hvis : visit big_g self body node st acc = Ok (st, acc)).
      { unfold visit. cbn [Feq F0 R_arith]. now rewrite (Reqb_true _ _ Hd). }
      rewrite Hvis in Hv |- *. cbn [bind fst snd] in *.
      apply IH; [exact Hst | lia].
    + assert (Hrej : ~ (w node + h node) / 2
                       / vector_len (vsub (cm node) (Body_pos body)) < limit self).
      { pose proof (vector_len_nonneg (vsub (cm node) (Body_pos body))) as Hn.
        destruct node as [p' w' h' bs' cm' tm' cs]. cbn [nodes] in Hnode.
        inversion Hnode as [| ? ? [Hw Hh] _]; subst. cbn [w h cm] in *.
        set (dist := vector_len (vsub cm' (Body_pos body))) in *.
        assert (Hinv : 0 < / dist) by (apply Rinv_0_lt_compat; lra).
        unfold Rdiv. nra. }
      rewrite (visit_rejected big_g self body node st acc Hd Hrej) in Hv |- *.
      cbn [bind fst snd] in *. apply IH; [| lia].
      apply Forall_app. split; [| exact Hst].
      apply Forall_rev.
      destruct node as [p' w' h' bs' cm' tm' cs]. cbn [nodes children] in *.
      inversion Hnode as [| ? ? _ Hcs]; subst.
      clear - Hcs. induction cs as [| c cs IHcs]; [constructor |].
      cbn [flat_map] in Hcs. apply Forall_app in Hcs as [Hc Hcs].
      constructor; [exact Hc | exact (IHcs Hcs)].
Qed.

(** X15.  With [limit <= 0] no Node of a QuadTree is ever accepted
    (widths and heights are not negative, so [size / dist] is not
    either): the acceleration computed for any body is zero, and a step
    hands every body to [update] with the zero acceleration. *)
Theorem nonpositive_limit_switches_gravity_off (fuel : nat) (bs : list Body)
    (dt0 limit0 eps0 : R) (self : QuadTree R Body) (n : Z) :
  QuadTree_init fuel bs dt0 limit0 eps0 = Ok self ->
  limit0 <= 0 ->
  (forall body, acceleration big_g self body = Ok (0, 0))
  /\ step_forward big_g self n
     = Ok (mkQuadTree dt0 limit0 eps0
             (map (fun b => Body_update b (0, 0) dt0 n) bs) (root self)).
Proof.
  unfold QuadTree_init. intros H Hlim.
  apply bind_Ok in H as (dist & Hdist & H).
  apply bind_Ok in H as (r & Hr & H).
  injection H as <-.
  assert (Hnonneg : 0 <= dist).
  { destruct (py_max_bound _ _ Hdist) as [Hin _].
    apply in_map_iff in Hin as (b & <- & _). apply vector_len_nonneg. }
  pose proof (nonneg_nodes _ _ _ _ _ _ Hr Hnonneg Hnonneg) as Hall.
  assert (Hacc : forall body,
    acceleration big_g (mkQuadTree dt0 limit0 eps0 bs r) body = Ok (0, 0)).
  { intros body. unfold acceleration. cbn [root].
    apply while_stack_all_rejected; [exact Hlim | | simpl; lia].
    constructor; [exact Hall | constructor]. }
  split; [exact Hacc |].
  unfold step_forward. cbn [bodies dt limit eps root].
  assert (Hloop : forall todo,
    step_loop big_g (mkQuadTree dt0 limit0 eps0 bs r) n todo
    = Ok (map (fun b => Body_update b (0, 0) dt0 n) todo)).
  { induction todo as [| b todo IH]; cbn [step_loop map]; [reflexivity |].
    rewrite Hacc. cbn [bind dt]. now rewrite IH. }
  now rewrite Hloop.
Qed.

End RealWalk.

(** ** One iteration of the loop and the acceleration it ends in *)

Section RealLoop.

Context {Body : Type} {B : BodyOps R Body}.
Variable big_g : R.

Lemma node_count_children (node : Node R Body) :
  node_count node = S (stack_count (children node)).
Proof. destruct node; reflexivity. Qed.

Lemma stack_count_rev (cs : list (Node R Body)) :
  stack_count (rev cs) = stack_count cs.
Proof.
  pose proof (stack_count_push cs []) as H.
  rewrite push_children_rev, app_nil_r in H. rewrite H. simpl. lia.
Qed.

Lemma stack_count_app (a b : list (Node R Body)) :
  stack_count (a ++ b) = (stack_count a + stack_count b)%nat.
Proof. induction a as [| n a IH]; simpl; [reflexivity |]. rewrite IH. lia. Qed.

Lemma pull_sum_rev (f : Node R Body -> R * R) (cs : list (Node R Body)) :
  fold_right (fun c s => vadd (f c) s) (0, 0) (rev cs)
  = fold_right (fun c s => vadd (f c) s) (0, 0) cs.
Proof.
  pose proof (pull_sum_pushed f cs []) as H.
  rewrite app_nil_r in H. rewrite H. cbn [fold_right]. apply vadd_zero_r.
Qed.

(** C4.  The loop [while stack:] of [step_forward], at a popped Node at
    distance [dist > 0] from the body, with [size] the mean of its
    width and height.  If [size / dist < limit] the iteration adds to
    the accumulator a vector of magnitude
    [G * total_mass * dist / (dist^2 + eps^2)^(3/2)] along
    [node.cm - body.pos] and pushes none of the children: the loop goes
    on with the stack as popped, and the acceleration it ends in is the
    accumulator plus that vector plus what the rest of the stack yields.
    Otherwise the accumulator is left as it was and all the children are
    pushed, the last one on top: the loop goes on with them, and the
    acceleration it ends in is the accumulator plus what the children
    yield plus what the rest of the stack yields, with nothing from the
    Node itself.  The root is the first Node popped: if it is accepted
    the acceleration of the body is that one vector, if not it is what
    the loop yields from the root's children. *)
Theorem acceptance_criterion (self : QuadTree R Body) (body : Body)
    (node : Node R Body) (st : list (Node R Body)) (acc : R * R) (fuel : nat) :
  let size := (w node + h node) / 2 in
  let vec := vsub (cm node) (Body_pos body) in
  let dist := vector_len vec in
  let mag := big_g * total_mass node * dist
             / Rpower (dist * dist + eps self * eps self) (3 / 2) in
  let unit := vscale (/ dist) vec in
  dist <> 0 ->
  (stack_count (node :: st) <= S fuel)%nat ->
  (size / dist < limit self ->
     vector_len unit = 1
     /\ vector_len (vscale mag unit) = Rabs mag
     /\ visit big_g self body node st acc = Ok (st, vadd acc (vscale mag unit))
     /\ while_stack big_g (S fuel) self body (node :: st) acc
        = while_stack big_g fuel self body st (vadd acc (vscale mag unit))
     /\ (exists rest,
          while_stack big_g fuel self body st np_zeros = Ok rest
          /\ while_stack big_g (S fuel) self body (node :: st) acc
             = Ok (vadd (vadd acc (vscale mag unit)) rest))
     /\ (node = root self ->
         acceleration big_g self body = Ok (vscale mag unit)))
  /\ (~ size / dist < limit self ->
      visit big_g self body node st acc = Ok (rev (children node) ++ st, acc)
      /\ while_stack big_g (S fuel) self body (node :: st) acc
         = while_stack big_g fuel self body (rev (children node) ++ st) acc
      /\ (exists below rest,
           while_stack big_g fuel self body (rev (children node)) np_zeros = Ok below
           /\ while_stack big_g fuel self body st np_zeros = Ok rest
           /\ while_stack big_g (S fuel) self body (node :: st) acc
              = Ok (vadd (vadd acc below) rest))
      /\ (node = root self ->
          acceleration big_g self body
          = while_stack big_g (stack_count (children node)) self body
              (rev (children node)) np_zeros)).
Proof.
  intros size vec dist mag unit Hd Hfuel.
  assert (Hpos : 0 < dist).
  { pose proof (vector_len_nonneg vec). unfold dist in *. lra. }
  assert (Hunit : vector_len unit = 1).
  { unfold unit. rewrite vector_len_scale. fold dist.
    rewrite Rabs_pos_eq; [field; exact Hd |].
    left. now apply Rinv_0_lt_compat. }
  assert (Hcount : (stack_count (children node) + stack_count st <= fuel)%nat).
  { cbn [stack_count fold_right] in Hfuel. fold (stack_count st) in Hfuel.
    rewrite node_count_children in Hfuel. lia. }
  change (@np_zeros R R_arith) with ((0, 0) : R * R).
  split.
  - intros Hacc.
    pose proof (visit_accepted big_g self body node st acc Hd Hacc) as Hvis.
    fold vec dist mag unit in Hvis.
    assert (Hstep : while_stack big_g (S fuel) self body (node :: st) acc
                    = while_stack big_g fuel self body st (vadd acc (vscale mag unit))).
    { cbn [while_stack]. rewrite Hvis. reflexivity. }
    split; [exact Hunit |].
    split; [rewrite vector_len_scale, Hunit; ring |].
    split; [exact Hvis |]. split; [exact Hstep |]. split.
    + eexists. split; [apply while_stack_pull; lia |].
      rewrite Hstep, while_stack_pull by lia.
      now rewrite vadd_zero_l.
    + intros Hroot. unfold acceleration. rewrite <- Hroot.
      rewrite node_count_children. cbn [while_stack].
      rewrite (visit_accepted big_g self body node [] np_zeros Hd Hacc).
      fold vec dist mag unit. cbn [bind fst snd].
      destruct (stack_count (children node)); cbn [while_stack];
        apply f_equal; apply vadd_zero_l.
  - intros Hrej.
    pose proof (visit_rejected big_g self body node st acc Hd Hrej) as Hvis.
    assert (Hstep : while_stack big_g (S fuel) self body (node :: st) acc
                    = while_stack big_g fuel self body (rev (children node) ++ st) acc).
    { cbn [while_stack]. rewrite Hvis. reflexivity. }
    split; [exact Hvis |]. split; [exact Hstep |]. split.
    + eexists. eexists.
      split; [apply while_stack_pull; rewrite stack_count_rev; lia |].
      split; [apply while_stack_pull; lia |].
      rewrite Hstep, while_stack_pull
        by (rewrite stack_count_app, stack_count_rev; lia).
      rewrite pull_sum_pushed, pull_sum_rev, !vadd_zero_l.
      now rewrite vadd_assoc.
    + intros Hroot. unfold acceleration. rewrite <- Hroot.
      rewrite node_count_children. cbn [while_stack].
      rewrite (visit_rejected big_g self body node [] np_zeros Hd Hrej).
      cbn [bind fst snd]. now rewrite app_nil_r.
Qed.

End RealLoop.

(** ** The further properties on the worked example *)

Lemma two_body_split :
  _split_bodies (0, 0) [planet; star]
  = Ok [ (NW, [star]); (NE, []); (SW, [planet]); (SE, []) ].
Proof.
  cbn [_split_bodies split_loop].
  cbn [Body_pos rbody_ops planet star rposition].
  rewrite (find_quadrant_east_axis 3 0 0), (find_quadrant_west_axis (-1) 0 0) by lra.
  reflexivity.
Qed.

Lemma comet_tree_built :
  Node_init 2 (0, 0) 5 5 [planet; comet] = Ok comet_tree.
Proof.
  cbn [Node_init _create_child_nodes _split_bodies split_loop].
  cbn [Body_pos rbody_ops planet comet rposition].
  rewrite (find_quadrant_east_axis 3 0 0) by lra.
  rewrite (find_quadrant_lower_left (-3, -4) (0, 0)) by (cbn [fst snd]; lra).
  cbn [bind dict_append b_quads0 Quad_eqb app].
  unfold _calc_cm, checked_div, py_sum, py_sum_vec, vadd, vscale.
  cbn [map fold_left Body_m Body_pos rbody_ops rmass rposition planet comet fst snd
       Fadd Fmul Fdiv Feq F0 F1 R_arith].
  rewrite Reqb_false by lra.
  cbn [bind create_loop _create_node _create_child_nodes fst snd app map fold_left
       Fadd Fsub Fdiv F0 F2 R_arith].
  unfold comet_tree, np_zeros.
  cbn [Body_pos rbody_ops rmass rposition planet comet F0 R_arith].
  same_tree.
Qed.

Lemma two_body_system_no_limit :
  QuadTree_init 2 [planet; star] 1 0 1000
  = Ok (mkQuadTree 1 0 1000 [planet; star] two_body_tree).
Proof.
  unfold QuadTree_init, py_max.
  cbn [map fold_left Body_pos rbody_ops rposition planet star Flt F0 R_arith].
  rewrite !vector_len_x_axis.
  rewrite (Rabs_pos_eq 3), (Rabs_left (-1)) by lra.
  rewrite Rltb_false by lra.
  cbn [bind]. rewrite two_body_tree_built. reflexivity.
Qed.

Lemma split_bodies_partition_witness :
  let d := [ (NW, [star]); (NE, []); (SW, [planet]); (SE, []) ] in
  _split_bodies (0, 0) [planet; star] = Ok d
  /\ d = map (fun quad => (quad, filter (in_quadrant (0, 0) quad) [planet; star]))
             [NW; NE; SW; SE]
  /\ Permutation (concat (map snd d)) [planet; star].
Proof.
  cbv zeta.
  assert (H1 : _split_bodies (0, 0) [planet; star]
               = Ok [ (NW, [star]); (NE, []); (SW, [planet]); (SE, []) ])
    by exact two_body_split.
  split; [exact H1 |].
  exact (@split_bodies_partition R R_arith rbody rbody_ops (0, 0) [planet; star]
           [ (NW, [star]); (NE, []); (SW, [planet]); (SE, []) ] H1).
Defined.

Lemma leaves_hold_each_body_once_witness :
  Node_init 2 (0, 0) 3 3 [planet; star] = Ok two_body_tree
  /\ Permutation (leaf_bodies two_body_tree) [planet; star]
  /\ Forall (fun n' => children n' = [] -> (length (_bodies n') <= 1)%nat)
            (nodes two_body_tree).
Proof.
  assert (H1 : Node_init 2 (0, 0) 3 3 [planet; star] = Ok two_body_tree)
    by exact two_body_tree_built.
  split; [exact H1 |].
  exact (@leaves_hold_each_body_once R R_arith rbody rbody_ops 2 (0, 0) 3 3
           [planet; star] two_body_tree H1).
Defined.

Lemma children_carry_mass_witness :
  Node_init 2 (0, 0) 3 3 [planet; star] = Ok two_body_tree
  /\ In two_body_tree (nodes two_body_tree)
  /\ (2 <= length (_bodies two_body_tree))%nat
  /\ total_mass two_body_tree
     = fold_right (fun c s => total_mass c + s) 0 (children two_body_tree)
  /\ total_mass two_body_tree * fst (cm two_body_tree)
     = fold_right (fun c s => total_mass c * fst (cm c) + s) 0 (children two_body_tree)
  /\ total_mass two_body_tree * snd (cm two_body_tree)
     = fold_right (fun c s => total_mass c * snd (cm c) + s) 0 (children two_body_tree).
Proof.
  assert (H1 : Node_init 2 (0, 0) 3 3 [planet; star] = Ok two_body_tree)
    by exact two_body_tree_built.
  assert (H2 : In two_body_tree (nodes two_body_tree)) by (simpl; left; reflexivity).
  assert (H3 : (2 <= length (_bodies two_body_tree))%nat) by (simpl; lia).
  split; [exact H1 |]. split; [exact H2 |]. split; [exact H3 |].
  exact (@children_carry_mass rbody rbody_ops 2 (0, 0) 3 3 [planet; star]
           two_body_tree two_body_tree H1 H2 H3).
Defined.

Lemma quadtree_nodes_square_witness :
  QuadTree_init 2 [planet; star] 1 5 1000 = Ok two_body_system
  /\ In two_body_tree (nodes (root two_body_system))
  /\ w two_body_tree = h two_body_tree
  /\ Forall (fun c => w c = w two_body_tree / F2 /\ h c = h two_body_tree / F2
                      /\ exists quad,
                           pos c = child_pos (pos two_body_tree) (w two_body_tree)
                                             (h two_body_tree) quad)
            (children two_body_tree).
Proof.
  assert (H1 : QuadTree_init 2 [planet; star] 1 5 1000 = Ok two_body_system)
    by exact two_body_system_built.
  assert (H2 : In two_body_tree (nodes (root two_body_system)))
    by (simpl; left; reflexivity).
  split; [exact H1 |]. split; [exact H2 |].
  exact (@quadtree_nodes_square R R_arith rbody rbody_ops 2 [planet; star] 1 5 1000
           two_body_system two_body_tree H1 H2).
Defined.

Lemma body_below_centre_misplaced_witness :
  Node_init 2 (0, 0) 5 5 [planet; comet] = Ok comet_tree
  /\ (2 <= length [planet; comet])%nat
  /\ In comet [planet; comet]
  /\ snd (Body_pos comet) < snd (0, 0)
  /\ fst (Body_pos comet) <> fst (0, 0)
  /\ exists c,
       In c (children comet_tree)
       /\ In comet (_bodies c)
       /\ pos c = child_pos (0, 0) 5 5
                    (if Rlt_dec (fst (0, 0)) (fst (Body_pos comet)) then SW else SE)
       /\ ~ inside c (Body_pos comet).
Proof.
  assert (H1 : Node_init 2 (0, 0) 5 5 [planet; comet] = Ok comet_tree)
    by exact comet_tree_built.
  assert (H2 : (2 <= length [planet; comet])%nat) by (simpl; lia).
  assert (H3 : In comet [planet; comet]) by (simpl; right; left; reflexivity).
  assert (H4 : snd (Body_pos comet) < snd (0, 0)) by (simpl; lra).
  assert (H5 : fst (Body_pos comet) <> fst (0, 0)) by (simpl; lra).
  split; [exact H1 |]. split; [exact H2 |]. split; [exact H3 |].
  split; [exact H4 |]. split; [exact H5 |].
  exact (@body_below_centre_misplaced rbody rbody_ops 2 (0, 0) 5 5 [planet; comet]
           comet_tree comet H1 H2 H3 H4 H5).
Defined.

Lemma coincident_bodies_never_built_witness :
  (2 <= length [planet; planet])%nat
  /\ (forall b, In b [planet; planet] -> Body_pos b = (3, 0))
  /\ mass_sum [planet; planet] <> 0
  /\ (forall (fuel : nat) (p : R * R) (w0 h0 : R),
        Node_init fuel p w0 h0 [planet; planet] = Raise OutOfFuel)
  /\ (forall (fuel : nat) (dt0 limit0 eps0 : R),
        QuadTree_init fuel [planet; planet] dt0 limit0 eps0 = Raise OutOfFuel).
Proof.
  assert (H1 : (2 <= length [planet; planet])%nat) by (simpl; lia).
  assert (H2 : forall b, In b [planet; planet] -> Body_pos b = (3, 0)).
  { intros b [<- | [<- | []]]; reflexivity. }
  assert (H3 : mass_sum [planet; planet] <> 0) by (simpl; lra).
  split; [exact H1 |]. split; [exact H2 |]. split; [exact H3 |].
  exact (@coincident_bodies_never_built rbody rbody_ops (3, 0) [planet; planet]
           H1 H2 H3).
Defined.

Lemma nonpositive_limit_switches_gravity_off_witness :
  let self := mkQuadTree 1 0 1000 [planet; star] two_body_tree in
  QuadTree_init 2 [planet; star] 1 0 1000 = Ok self
  /\ 0 <= 0
  /\ (forall body, acceleration 1 self body = Ok (0, 0))
  /\ step_forward 1 self 0
     = Ok (mkQuadTree 1 0 1000
             (map (fun b => Body_update b (0, 0) 1 0) [planet; star]) (root self)).
Proof.
  cbv zeta.
  assert (H1 : QuadTree_init 2 [planet; star] 1 0 1000
               = Ok (mkQuadTree 1 0 1000 [planet; star] two_body_tree))
    by exact two_body_system_no_limit.
  assert (H2 : 0 <= 0) by lra.
  split; [exact H1 |]. split; [exact H2 |].
  exact (@nonpositive_limit_switches_gravity_off rbody rbody_ops 1 2 [planet; star]
           1 0 1000 (mkQuadTree 1 0 1000 [planet; star] two_body_tree) 0%Z H1 H2).
Defined.

Lemma northern_body_well_placed_witness :
  Node_init 2 (0, 0) 3 3 [planet; star] = Ok two_body_tree
  /\ (2 <= length [planet; star])%nat
  /\ In star [planet; star]
  /\ _find_quadrant (Body_pos star) (0, 0) = Ok NW
  /\ (NW = NE \/ NW = NW)
  /\ inside two_body_tree (Body_pos star)
  /\ exists c,
       In c (children two_body_tree)
       /\ In star (_bodies c)
       /\ pos c = child_pos (0, 0) 3 3 NW
       /\ inside c (Body_pos star).
Proof.
  assert (H1 : Node_init 2 (0, 0) 3 3 [planet; star] = Ok two_body_tree)
    by exact two_body_tree_built.
  assert (H2 : (2 <= length [planet; star])%nat) by (simpl; lia).
  assert (H3 : In star [planet; star]) by (simpl; right; left; reflexivity).
  assert (H4 : _find_quadrant (Body_pos star) (0, 0) = Ok NW).
  { apply (find_quadrant_west_axis (-1) 0 0). lra. }
  assert (H5 : NW = NE \/ NW = NW) by (right; reflexivity).
  assert (H6 : inside two_body_tree (Body_pos star)).
  { unfold inside. cbn [two_body_tree pos w h Body_pos rbody_ops star rposition fst snd].
    split; apply Rabs_le; lra. }
  split; [exact H1 |]. split; [exact H2 |]. split; [exact H3 |].
  split; [exact H4 |]. split; [exact H5 |]. split; [exact H6 |].
  exact (@northern_body_well_placed rbody rbody_ops 2 (0, 0) 3 3 [planet; star]
           two_body_tree star NW H1 H2 H3 H4 H5 H6).
Defined.

Lemma massless_bodies_raise_witness :
  (2 <= length dust)%nat
  /\ mass_sum dust = 0
  /\ (forall (fuel : nat) (p : R * R) (w0 h0 : R),
        Node_init (S fuel) p w0 h0 dust = Raise ZeroDivision)
  /\ (forall (fuel : nat) (dt0 limit0 eps0 : R),
        QuadTree_init (S fuel) dust dt0 limit0 eps0 = Raise ZeroDivision).
Proof.
  assert (H1 : (2 <= length dust)%nat) by (simpl; lia).
  assert (H2 : mass_sum dust = 0) by (unfold dust; simpl; lra).
  split; [exact H1 |]. split; [exact H2 |].
  exact (@massless_bodies_raise rbody rbody_ops dust H1 H2).
Defined.

(** ** The loop on the two bodies, with [limit = 1] *)

Lemma two_body_system_limit_one_built :
  QuadTree_init 2 [planet; star] 1 1 1000 = Ok two_body_system_limit_one.
Proof.
  unfold QuadTree_init, py_max.
  cbn [map fold_left Body_pos rbody_ops rposition planet star Flt F0 R_arith].
  rewrite !vector_len_x_axis.
  rewrite (Rabs_pos_eq 3), (Rabs_left (-1)) by lra.
  rewrite Rltb_false by lra.
  cbn [bind]. rewrite two_body_tree_built. reflexivity.
Qed.

(** Seen from the planet, an empty child is at distance 3: it is
    accepted and, having no mass, adds nothing. *)
Lemma empty_child_adds_nothing (p : R * R) (st : list (Node R rbody)) (acc : R * R) :
  visit 1 two_body_system_limit_one planet (empty_child p) st acc = Ok (st, acc).
Proof.
  assert (Hvec : vsub (cm (empty_child p)) (Body_pos planet) = (-3, 0)).
  { unfold vsub. cbn [cm empty_child Body_pos rbody_ops rposition planet fst snd
                      Fsub R_arith]. apply f_equal2; lra. }
  assert (Hdist : vector_len (vsub (cm (empty_child p)) (Body_pos planet)) = 3).
  { rewrite Hvec, vector_len_x_axis, Rabs_left by lra. lra. }
  rewrite visit_accepted.
  - rewrite Hdist, Hvec. cbn [total_mass empty_child].
    destruct acc as [ax ay]. unfold vadd, vscale. cbn [fst snd Fadd Fmul R_arith].
    apply f_equal. apply f_equal2; [reflexivity |].
    apply f_equal2; unfold Rdiv; ring.
  - rewrite Hdist. lra.
  - rewrite Hdist. cbn [w h empty_child limit two_body_system_limit_one]. lra.
Qed.

(** The planet's own leaf is at distance 0 from the planet. *)
Lemma planet_leaf_skipped (self : QuadTree R rbody) (st : list (Node R rbody))
    (acc : R * R) :
  visit 1 self planet planet_leaf st acc = Ok (st, acc).
Proof.
  unfold visit. cbn [cm planet_leaf Body_pos rbody_ops rposition planet].
  rewrite vsub_self, vector_len_x_axis, Rabs_R0.
  cbn [Feq F0 R_arith]. now rewrite Reqb_true.
Qed.

Lemma acceptance_criterion_witness :
  let self := two_body_system_limit_one in
  let pushed := [ empty_child (3 / 2, - (3 / 2)); planet_leaf;
                  empty_child (3 / 2, 3 / 2); star_leaf ] in
  let root_dist := vector_len (vsub (cm two_body_tree) (Body_pos planet)) in
  let star_dist := vector_len (vsub (cm star_leaf) (Body_pos planet)) in
  let star_pull := 8 / Rpower (16 + 1000 * 1000) (3 / 2) in
  QuadTree_init 2 [planet; star] 1 1 1000 = Ok self
  /\ root_dist <> 0
  /\ (stack_count [two_body_tree] <= 5)%nat
  /\ ~ (w two_body_tree + h two_body_tree) / 2 / root_dist < limit self
  /\ visit 1 self planet two_body_tree [] (0, 0) = Ok (pushed, (0, 0))
  /\ while_stack 1 5 self planet [two_body_tree] (0, 0)
     = while_stack 1 4 self planet pushed (0, 0)
  /\ acceleration 1 self planet = while_stack 1 4 self planet pushed (0, 0)
  /\ star_dist <> 0
  /\ (stack_count [star_leaf] <= 1)%nat
  /\ (w star_leaf + h star_leaf) / 2 / star_dist < limit self
  /\ visit 1 self planet star_leaf [] (0, 0) = Ok ([], (- star_pull, 0))
  /\ while_stack 1 1 self planet [star_leaf] (0, 0) = Ok (- star_pull, 0)
  /\ acceleration 1 self planet = Ok (- star_pull, 0).
Proof.
  cbv zeta.
  destruct root_seen_from_planet as [_ Hroot].
  destruct star_seen_from_planet as [Hsvec Hstar].
  assert (Hd1 : vector_len (vsub (cm two_body_tree) (Body_pos planet)) <> 0)
    by (rewrite Hroot; lra).
  assert (Hf1 : (stack_count [two_body_tree] <= 5)%nat) by (simpl; lia).
  assert (Hrej : ~ (w two_body_tree + h two_body_tree) / 2
                   / vector_len (vsub (cm two_body_tree) (Body_pos planet))
                   < limit two_body_system_limit_one).
  { rewrite Hroot. cbn [w h two_body_tree limit two_body_system_limit_one]. lra. }
  assert (Hd2 : vector_len (vsub (cm star_leaf) (Body_pos planet)) <> 0)
    by (rewrite Hstar; lra).
  assert (Hf2 : (stack_count [star_leaf] <= 1)%nat) by (simpl; lia).
  assert (Hacc : (w star_leaf + h star_leaf) / 2
                 / vector_len (vsub (cm star_leaf) (Body_pos planet))
                 < limit two_body_system_limit_one).
  { rewrite Hstar. cbn [w h star_leaf limit two_body_system_limit_one]. lra. }
  destruct (proj2 (@acceptance_criterion rbody rbody_ops 1 two_body_system_limit_one
                     planet two_body_tree [] (0, 0) 4%nat Hd1 Hf1) Hrej)
    as (Hvis1 & Hstep1 & _ & Hacc1).
  destruct (proj1 (@acceptance_criterion rbody rbody_ops 1 two_body_system_limit_one
                     planet star_leaf [] (0, 0) 0%nat Hd2 Hf2) Hacc)
    as (_ & _ & Hvis2 & Hstep2 & _).
  assert (Hpull : vadd (0, 0)
            (vscale (1 * total_mass star_leaf
                       * vector_len (vsub (cm star_leaf) (Body_pos planet))
                     / Rpower (vector_len (vsub (cm star_leaf) (Body_pos planet))
                               * vector_len (vsub (cm star_leaf) (Body_pos planet))
                               + eps two_body_system_limit_one
                                 * eps two_body_system_limit_one) (3 / 2))
               (vscale (/ vector_len (vsub (cm star_leaf) (Body_pos planet)))
                  (vsub (cm star_leaf) (Body_pos planet))))
          = (- (8 / Rpower (16 + 1000 * 1000) (3 / 2)), 0)).
  { assert (Hp : 0 < Rpower (16 + 1000 * 1000) (3 / 2))
      by (unfold Rpower; apply exp_pos).
    rewrite Hstar, Hsvec.
    cbn [total_mass star_leaf eps two_body_system_limit_one].
    replace (4 * 4 + 1000 * 1000) with (16 + 1000 * 1000) by ring.
    unfold vadd, vscale. cbn [fst snd Fadd Fmul R_arith].
    apply f_equal2; field; lra. }
  rewrite Hpull in Hvis2, Hstep2.
  specialize (Hacc1 eq_refl).
  split; [exact two_body_system_limit_one_built |].
  split; [exact Hd1 |]. split; [exact Hf1 |]. split; [exact Hrej |].
  split; [exact Hvis1 |]. split; [exact Hstep1 |]. split; [exact Hacc1 |].
  split; [exact Hd2 |]. split; [exact Hf2 |]. split; [exact Hacc |].
  split; [exact Hvis2 |]. split; [exact Hstep2 |].
  rewrite Hacc1.
  cbn [children two_body_tree rev app stack_count fold_right node_count
       star_leaf planet_leaf empty_child Nat.add while_stack].
  fold (empty_child (3 / 2, - (3 / 2))) (empty_child (3 / 2, 3 / 2)).
  fold planet_leaf star_leaf.
  rewrite empty_child_adds_nothing. cbn [bind fst snd while_stack].
  rewrite planet_leaf_skipped. cbn [bind fst snd while_stack].
  rewrite empty_child_adds_nothing. cbn [bind fst snd while_stack].
  unfold np_zeros. cbn [F0 R_arith].
  rewrite Hvis2. reflexivity.
Defined.
